(** * lib/set-field.c: the OpenFlow 1.2 set-field action

    A shallow embedding of [lib/set-field.c] (allow-list, validator, wire
    decoder and encoder, text parser and formatter) together with the
    properties of the specification that can be stated about it.

    Conventions.
    - Unsigned C integers are [Z]; every narrowing conversion of the source
      ([uint8_t], [uint16_t]) is written out as a [mod].
    - A byte is a [Z]; a region of memory is a [list Z] and a read outside
      of it is the outcome [Undefined].
    - A C string is a [string].
    - A C function that may not return normally has an [outcome] as its
      result: it returns, it leaves through [ovs_fatal], it stops on a
      failed [assert], or it reads or writes outside of an object. *)

From Stdlib Require Import ZArith List String Ascii Bool Lia HexString.
Import ListNotations.
Open Scope Z_scope.

(* ================================================================== *)
(** ** Outcomes of a C call *)

(** The six [ovs_fatal] calls of [set_field_parse], each with the arguments
    of its format string. *)
Inductive fatal_msg : Type :=
| missing_arrow (orig : string)             (* "%s: missing `->'" *)
| missing_field_name (orig : string)        (* "%s: missing field name following `->'" *)
| not_valid_oxm_field_name (key : string)   (* "%s is not valid oxm field name" *)
| not_allowed_to_set (key : string)         (* "%s is not allowed to set" *)
| parse_value_error (error : string)        (* "%s" *)
| not_valid_for_field (value key : string). (* "%s is not valid valid for field %s" *)

(** The text [ovs_fatal] formats from each call. *)
Definition fatal_text (m : fatal_msg) : string :=
  (match m with
   | missing_arrow orig => orig ++ ": missing `->'"
   | missing_field_name orig => orig ++ ": missing field name following `->'"
   | not_valid_oxm_field_name key => key ++ " is not valid oxm field name"
   | not_allowed_to_set key => key ++ " is not allowed to set"
   | parse_value_error error => error
   | not_valid_for_field value key =>
       value ++ " is not valid valid for field " ++ key
   end)%string.

Inductive outcome (A : Type) : Type :=
| Returns (a : A)        (* the call returns [a] to its caller *)
| Exits (m : fatal_msg)  (* [ovs_fatal]: message, then [exit(EXIT_FAILURE)] *)
| Aborts                 (* a failed [assert] *)
| Undefined.             (* an access outside of an object, or through NULL *)

Arguments Returns {A} a.
Arguments Exits {A} m.
Arguments Aborts {A}.
Arguments Undefined {A}.

Definition bind {A B : Type} (c : outcome A) (k : A -> outcome B) : outcome B :=
  match c with
  | Returns a => k a
  | Exits m => Exits m
  | Aborts => Aborts
  | Undefined => Undefined
  end.

Notation "x <- c ;; k" := (bind c (fun x => k))
  (at level 61, c at next level, right associativity).

(** [assert(b)]. *)
Definition assert (b : bool) : outcome unit :=
  if b then Returns tt else Aborts.

(** [ovs_fatal(0, format, ...)]: never returns. *)
Definition ovs_fatal {A : Type} (m : fatal_msg) : outcome A := Exits m.

(** Does the call hand control back to its caller? *)
Definition returns_to_caller {A : Type} (o : outcome A) : bool :=
  match o with
  | Returns _ => true
  | _ => false
  end.

(* ================================================================== *)
(** ** The field registry (meta-flow.h), as far as set-field.c reads it *)

(** [enum mf_field_id], with the identifiers the switch of
    [set_field_mf_allowed] names.  [CASE_MFF_REGS] stands for
    [case MFF_REG0: case MFF_REG1: ...], one per register, hence
    [MFF_REG i]; [MFF_OTHER] is any identifier the switch does not name
    (it takes the [default] branch). *)
Inductive mf_field_id : Type :=
| MFF_TUN_ID
| MFF_IN_PORT
| MFF_REG (i : nat)
| MFF_ETH_SRC
| MFF_ETH_DST
| MFF_ETH_TYPE
| MFF_VLAN_TCI
| MFF_VLAN_VID
| MFF_VLAN_PCP
| MFF_VLAN_TPID
| MFF_VLAN_QINQ_VID
| MFF_VLAN_QINQ_PCP
| MFF_MPLS_LABEL
| MFF_MPLS_TC
| MFF_MPLS_STACK
| MFF_IPV4_SRC
| MFF_IPV4_DST
| MFF_IPV6_SRC
| MFF_IPV6_DST
| MFF_IPV6_LABEL
| MFF_IP_PROTO
| MFF_IP_DSCP
| MFF_IP_ECN
| MFF_IP_TTL
| MFF_IP_FRAG
| MFF_ARP_OP
| MFF_ARP_SPA
| MFF_ARP_TPA
| MFF_ARP_SHA
| MFF_ARP_THA
| MFF_TCP_SRC
| MFF_TCP_DST
| MFF_UDP_SRC
| MFF_UDP_DST
| MFF_ICMPV4_TYPE
| MFF_ICMPV4_CODE
| MFF_ICMPV6_TYPE
| MFF_ICMPV6_CODE
| MFF_ND_TARGET
| MFF_ND_SLL
| MFF_ND_TLL
| MFF_N_IDS
| MFF_OTHER (n : nat).

(** [struct mf_field], the members set-field.c reads. *)
Record mf_field : Type := {
  id : mf_field_id;
  name : string;
  n_bytes : Z;        (* unsigned int *)
  n_bits : Z;         (* unsigned int *)
  writable : bool;
  oxm_header : Z      (* uint32_t; 0: no OXM header *)
}.

(** [union mf_value]: the bytes of the union, in memory order. *)
Definition mf_value : Type := list Z.

(** The functions of meta-flow.c that set-field.c calls, and the size of
    [union mf_value].  They are outside of this file; every definition below
    takes them as given. *)
Class MetaFlow : Type := {
  sizeof_mf_value : nat;
  (* mf_from_nxm_header(uint32_t header): the field, NULL is None *)
  mf_from_nxm_header : Z -> option mf_field;
  (* mf_parse_oxm_name(const char s[]): the field, NULL is None *)
  mf_parse_oxm_name : string -> option mf_field;
  (* bool mf_is_value_valid(mf, value) *)
  mf_is_value_valid : mf_field -> mf_value -> bool;
  (* mf_parse_value(mf, s, value): the error string (NULL is None) and
     the contents of the union [value] points to afterwards, given its
     contents before *)
  mf_parse_value : mf_field -> string -> mf_value -> option string * mf_value;
  (* mf_format(mf, value, NULL, s): the text appended to s *)
  mf_format : mf_field -> mf_value -> string
}.

(* ================================================================== *)
(** ** Instructions (ofp-actions.h) *)

Inductive ofperr : Type :=
| OFPERR_0                        (* [return 0]: no error *)
| OFPERR_OFPBAC_BAD_ARGUMENT.

Inductive ofputil_action_code : Type :=
| OFPUTIL_ACTION_INVALID
| OFPUTIL_NXAST_REG_LOAD
| OFPUTIL_OFPAT12_SET_FIELD.

Definition is_set_field (c : ofputil_action_code) : bool :=
  match c with
  | OFPUTIL_OFPAT12_SET_FIELD => true
  | _ => false
  end.

(** [struct mf_subfield]. *)
Record mf_subfield : Type := {
  field : option mf_field;   (* pointer to the field; NULL is None *)
  ofs : Z;
  sf_n_bits : Z              (* member [n_bits] *)
}.

(** [struct ofpact_reg_load]; of the [struct ofpact] header only [compat]
    varies among the instructions built here. *)
Record ofpact_reg_load : Type := {
  compat : ofputil_action_code;   (* ofpact.compat *)
  dst : mf_subfield;
  value : mf_value
}.

(** One instruction of an [ofpacts] buffer. *)
Inductive ofpact : Type :=
| OFPACT_REG_LOAD (load : ofpact_reg_load)
| OFPACT_OTHER (raw : list Z).   (* any other instruction *)

(** The [struct flow] argument of the checks; set-field.c never reads it. *)
Definition flow : Type := unit.

(* ================================================================== *)
(** ** set_field_mf_allowed *)

Definition set_field_mf_allowed (mf : mf_field) : bool :=
  if negb (writable mf) || (oxm_header mf =? 0) then false
  else
    match id mf with
    | MFF_ETH_SRC
    | MFF_ETH_DST
    | MFF_ETH_TYPE
    | MFF_VLAN_VID
    | MFF_VLAN_PCP
    | MFF_IP_DSCP
    | MFF_IP_ECN
    | MFF_IP_PROTO
    | MFF_IPV4_SRC
    | MFF_IPV4_DST
    | MFF_TCP_SRC
    | MFF_TCP_DST
    | MFF_UDP_SRC
    | MFF_UDP_DST
    | MFF_ICMPV4_TYPE
    | MFF_ICMPV4_CODE
    | MFF_ARP_OP
    | MFF_ARP_SPA
    | MFF_ARP_TPA
    | MFF_ARP_SHA
    | MFF_ARP_THA
    | MFF_IPV6_SRC
    | MFF_IPV6_DST
    | MFF_IPV6_LABEL
    | MFF_ICMPV6_TYPE
    | MFF_ICMPV6_CODE
    | MFF_ND_TARGET
    | MFF_ND_SLL
    | MFF_ND_TLL
    | MFF_MPLS_LABEL
    | MFF_MPLS_TC => true
    | MFF_TUN_ID
    | MFF_MPLS_STACK
    | MFF_IN_PORT
    | MFF_REG _
    | MFF_VLAN_TCI
    | MFF_VLAN_TPID
    | MFF_VLAN_QINQ_VID
    | MFF_VLAN_QINQ_PCP
    | MFF_IP_TTL
    | MFF_IP_FRAG
    | MFF_N_IDS => false
    | _ => false
    end.

(** [set_field_init]: the writes through [load]. *)
Definition set_field_init (load : ofpact_reg_load) (mf : mf_field)
  : ofpact_reg_load :=
  {| compat := OFPUTIL_OFPAT12_SET_FIELD;
     dst := {| field := Some mf; ofs := 0; sf_n_bits := n_bits mf |};
     value := value load |}.

(* ================================================================== *)
(** ** Constants, macros and byte order *)

(** Modelled from the spec: [struct ofp12_action_set_field] is declared in
    a header outside of src/; this is [sizeof(struct ofp12_action_set_field)].
    The spec's concrete example gives the fixed part of a record 8 bytes:
    [type] (2 bytes), [len] (2 bytes) and [field] (4 bytes, the OXM header);
    the value starts right after it ([oasf + 1]). *)
Definition sizeof_oasf : Z := 8.

(** Modelled from the spec: the offset of the member [len], the declared
    total length, in [struct ofp12_action_set_field] (declared outside of
    src/): it follows the two bytes of [type]. *)
Definition offsetof_len : Z := 2.

(** Modelled from the spec: the offset of the member [field], the 4-byte
    field-header code, in [struct ofp12_action_set_field] (declared outside
    of src/): it follows [type] and [len]. *)
Definition offsetof_field : Z := 4.

(** Modelled from the spec: the action type [ofputil_put_OFPAT12_SET_FIELD]
    (generated outside of src/) stores in a new record; the number is the
    one OpenFlow 1.2 gives the set-field action. *)
Definition OFPAT12_SET_FIELD : Z := 25.

(** Modelled from the spec: the macro [NXM_LENGTH] is defined in a header
    outside of src/.  It extracts the value length the field-header code
    declares: the low byte of an OXM header. *)
Definition NXM_LENGTH (header : Z) : Z := Z.land header 255.

(** Modelled from the spec: the macro [NXM_HASMASK] is defined in a header
    outside of src/.  It tests the mask bit of the field-header code: bit 8
    of an OXM header. *)
Definition NXM_HASMASK (header : Z) : bool := Z.testbit header 8.

(** Modelled from the spec: [ROUND_UP] (util.h, outside of src/) rounds
    [x] up to the next multiple of [y]. *)
Definition ROUND_UP (x y : Z) : Z := (x + (y - 1)) / y * y.

Definition uint8_t (x : Z) : Z := x mod 2 ^ 8.
Definition uint16_t (x : Z) : Z := x mod 2 ^ 16.
(** [size_t], taken as 64 bits wide. *)
Definition size_t (x : Z) : Z := x mod 2 ^ 64.

(** Network byte order: the bytes of a 16- or 32-bit number in memory. *)
Definition htons (x : Z) : list Z := [x / 2 ^ 8 mod 2 ^ 8; x mod 2 ^ 8].
Definition htonl (x : Z) : list Z :=
  [x / 2 ^ 24 mod 2 ^ 8; x / 2 ^ 16 mod 2 ^ 8; x / 2 ^ 8 mod 2 ^ 8; x mod 2 ^ 8].
Definition ntohs (b0 b1 : Z) : Z := b0 * 2 ^ 8 + b1.
Definition ntohl (b0 b1 b2 b3 : Z) : Z :=
  ((b0 * 2 ^ 8 + b1) * 2 ^ 8 + b2) * 2 ^ 8 + b3.

(* ================================================================== *)
(** ** Memory and strings *)

(** The byte at offset [i] of an object. *)
Definition read (mem : list Z) (i : Z) : outcome Z :=
  match nth_error mem (Z.to_nat i) with
  | Some b => Returns b
  | None => Undefined
  end.

(** [ntohs] of the [ovs_be16] at offset [off]. *)
Definition read_be16 (mem : list Z) (off : Z) : outcome Z :=
  b0 <- read mem off ;;
  b1 <- read mem (off + 1) ;;
  Returns (ntohs b0 b1).

(** [ntohl] of the [ovs_be32] at offset [off]. *)
Definition read_be32 (mem : list Z) (off : Z) : outcome Z :=
  b0 <- read mem off ;;
  b1 <- read mem (off + 1) ;;
  b2 <- read mem (off + 2) ;;
  b3 <- read mem (off + 3) ;;
  Returns (ntohl b0 b1 b2 b3).

(** The first [n] bytes of an object, as [ofpbuf_put] and [memcpy] read
    them. *)
Definition read_bytes (src : list Z) (n : Z) : outcome (list Z) :=
  if n <=? Z.of_nat (List.length src) then Returns (firstn (Z.to_nat n) src)
  else Undefined.

(** [memcpy(dst, src, n)]: the contents of [dst] afterwards. *)
Definition memcpy (dst src : list Z) (n : Z) : outcome (list Z) :=
  bytes <- read_bytes src n ;;
  if n <=? Z.of_nat (List.length dst) then Returns (bytes ++ skipn (Z.to_nat n) dst)
  else Undefined.

(** [strstr(haystack, needle)]: the offset of the first occurrence of
    [needle], [None] for NULL. *)
Fixpoint strstr (haystack needle : string) : option nat :=
  if prefix needle haystack then Some O
  else
    match haystack with
    | EmptyString => None
    | String _ rest => option_map S (strstr rest needle)
    end.

(** The string a pointer [s + n] points to. *)
Fixpoint str_from (n : nat) (s : string) : string :=
  match n, s with
  | O, _ => s
  | S n', String _ rest => str_from n' rest
  | S _, EmptyString => EmptyString
  end.

(** The string at [s] once [s[n]] has been set to NUL. *)
Fixpoint str_upto (n : nat) (s : string) : string :=
  match n, s with
  | O, _ => EmptyString
  | S n', String c rest => String c (str_upto n' rest)
  | S _, EmptyString => EmptyString
  end.

Section SetField.

Context {registry : MetaFlow}.

(** [set_field_check]; [mf] is dereferenced only after the assertion. *)
Definition set_field_check (load : ofpact_reg_load) (fl : option flow)
  : outcome ofperr :=
  _ <- assert (is_set_field (compat load)) ;;
  match field (dst load) with
  | None => Undefined
  | Some mf =>
      if negb (set_field_mf_allowed mf) then
        Returns OFPERR_OFPBAC_BAD_ARGUMENT
      else if negb (mf_is_value_valid mf (value load)) then
        Returns OFPERR_OFPBAC_BAD_ARGUMENT
      else
        Returns OFPERR_0
  end.

(** Modelled from the spec: [nxm_reg_load_check] is defined in nx-match.c,
    outside of src/.  It is the generic check of a load instruction, shared
    with the sibling instructions; on a set-field instruction it runs the
    validator and hands its result on unchanged. *)
Definition nxm_reg_load_check (load : ofpact_reg_load) (fl : option flow)
  : outcome ofperr :=
  set_field_check load fl.

(** Modelled from the spec: [ofpact_put_REG_LOAD] (ofp-actions.h, outside
    of src/) appends a new instruction to the buffer and returns a pointer
    to it.  This is the instruction as appended: all bytes zero, [compat]
    not yet set. *)
Definition ofpact_put_REG_LOAD : ofpact_reg_load :=
  {| compat := OFPUTIL_ACTION_INVALID;
     dst := {| field := None; ofs := 0; sf_n_bits := 0 |};
     value := repeat 0 sizeof_mf_value |}.

(** The loop [for (i = start; i < len; i++) if (oasf[i]) return ...] of
    the decoder, with [n] iterations left: [true] when it runs to its end,
    [false] when it finds a non-zero byte. *)
Fixpoint padding_is_zero (oasf : list Z) (i : Z) (n : nat) : outcome bool :=
  match n with
  | O => Returns true
  | S n' =>
      b <- read oasf i ;;
      if b =? 0 then padding_is_zero oasf (i + 1) n' else Returns false
  end.

(** [set_field_from_openflow].  [oasf] is the memory the record pointer
    points to.  [load] points at the instruction appended to [ofpacts]:
    the buffer at return is [ofpacts] followed by that instruction as last
    written. *)
Definition set_field_from_openflow (oasf : list Z) (ofpacts : list ofpact)
  : outcome (ofperr * list ofpact) :=
  len <- read_be16 oasf offsetof_len ;;
  header <- read_be32 oasf offsetof_field ;;   (* the local oxm_header *)
  let oxm_length := uint8_t (NXM_LENGTH header) in
  if negb (len =? ROUND_UP (sizeof_oasf + oxm_length) 8) then
    Returns (OFPERR_OFPBAC_BAD_ARGUMENT, ofpacts)
  else
    zero <- padding_is_zero oasf (sizeof_oasf + oxm_length)
              (Z.to_nat (len - (sizeof_oasf + oxm_length))) ;;
    if negb zero then Returns (OFPERR_OFPBAC_BAD_ARGUMENT, ofpacts)
    else if NXM_HASMASK header then
      Returns (OFPERR_OFPBAC_BAD_ARGUMENT, ofpacts)
    else
      match mf_from_nxm_header header with
      | None => Returns (OFPERR_OFPBAC_BAD_ARGUMENT, ofpacts)
      | Some mf =>
          if oxm_header mf =? 0 then
            Returns (OFPERR_OFPBAC_BAD_ARGUMENT, ofpacts)
          else
            let load := ofpact_put_REG_LOAD in
            let load := set_field_init load mf in
            v <- memcpy (value load)
                   (skipn (Z.to_nat sizeof_oasf) oasf) (n_bytes mf) ;;
            let load := {| compat := compat load; dst := dst load;
                           value := v |} in
            e <- nxm_reg_load_check load None ;;
            Returns (e, ofpacts ++ [OFPACT_REG_LOAD load])
      end.

(** [set_field_to_openflow]: the contents of [openflow] afterwards. *)
Definition set_field_to_openflow (load : ofpact_reg_load) (openflow : list Z)
  : outcome (list Z) :=
  _ <- assert (is_set_field (compat load)) ;;
  match field (dst load) with
  | None => Undefined
  | Some mf =>
      let len := uint16_t (sizeof_oasf + n_bytes mf) in
      let roundup := uint16_t (ROUND_UP len 8) in
      (* ofputil_put_OFPAT12_SET_FIELD, then the stores to field and len *)
      let oasf :=
        htons OFPAT12_SET_FIELD ++ htons roundup ++ htonl (oxm_header mf) in
      v <- read_bytes (value load) (n_bytes mf) ;;
      Returns (openflow ++ oasf ++ v
               ++ repeat 0 (Z.to_nat (size_t (roundup - len))))
  end.

(** [set_field_format]: the contents of [s] afterwards. *)
Definition set_field_format (load : ofpact_reg_load) (s : string)
  : outcome string :=
  _ <- assert (is_set_field (compat load)) ;;
  match field (dst load) with
  | None => Undefined
  | Some mf =>
      Returns (s ++ "set_field:" ++ mf_format mf (value load)
                 ++ "->" ++ name mf)%string
  end.

(** [set_field_parse]: the contents of [ofpacts] afterwards.  The
    instruction is appended on entry and written through [load]; a caller
    sees the buffer only when the function returns. *)
Definition set_field_parse (arg : string) (ofpacts : list ofpact)
  : outcome (list ofpact) :=
  let orig := arg in
  let load := ofpact_put_REG_LOAD in
  match strstr orig "->" with
  | None => ovs_fatal (missing_arrow orig)
  | Some delim =>
      if (String.length (str_from delim orig) <=? String.length "->")%nat then
        ovs_fatal (missing_field_name orig)
      else
        let key := str_from (delim + String.length "->") orig in
        match mf_parse_oxm_name key with
        | None => ovs_fatal (not_valid_oxm_field_name key)
        | Some mf =>
            if negb (set_field_mf_allowed mf) then
              ovs_fatal (not_allowed_to_set key)
            else
              let value_text := str_upto delim orig in
              let (error, v) := mf_parse_value mf value_text (value load) in
              match error with
              | Some e => ovs_fatal (parse_value_error e)
              | None =>
                  if negb (mf_is_value_valid mf v) then
                    ovs_fatal (not_valid_for_field value_text key)
                  else
                    let load := {| compat := compat load; dst := dst load;
                                   value := v |} in
                    Returns (ofpacts ++ [OFPACT_REG_LOAD (set_field_init load mf)])
              end
        end
  end.

End SetField.

(* ================================================================== *)
(** ** The data model of the specification *)

(** The AllowSet: the identifiers under [return true] in the switch of
    [set_field_mf_allowed]. *)
Definition AllowSet : list mf_field_id :=
  [ MFF_ETH_SRC; MFF_ETH_DST; MFF_ETH_TYPE; MFF_VLAN_VID; MFF_VLAN_PCP;
    MFF_IP_DSCP; MFF_IP_ECN; MFF_IP_PROTO; MFF_IPV4_SRC; MFF_IPV4_DST;
    MFF_TCP_SRC; MFF_TCP_DST; MFF_UDP_SRC; MFF_UDP_DST;
    MFF_ICMPV4_TYPE; MFF_ICMPV4_CODE;
    MFF_ARP_OP; MFF_ARP_SPA; MFF_ARP_TPA; MFF_ARP_SHA; MFF_ARP_THA;
    MFF_IPV6_SRC; MFF_IPV6_DST; MFF_IPV6_LABEL;
    MFF_ICMPV6_TYPE; MFF_ICMPV6_CODE;
    MFF_ND_TARGET; MFF_ND_SLL; MFF_ND_TLL;
    MFF_MPLS_LABEL; MFF_MPLS_TC ].

(** The SetFieldAction with target [f] and value bytes [v], as a load
    instruction: the bytes of the union after the value are zero, as in a
    freshly appended instruction. *)
Definition SetFieldAction {registry : MetaFlow} (f : mf_field) (v : list Z)
  : ofpact_reg_load :=
  {| compat := OFPUTIL_OFPAT12_SET_FIELD;
     dst := {| field := Some f; ofs := 0; sf_n_bits := n_bits f |};
     value := v ++ repeat 0 (sizeof_mf_value - List.length v) |}.

(** The declared total length and the field-header code of a record, and
    the value length the code declares. *)
Definition wire_len (oasf : list Z) : Z :=
  ntohs (nth 2 oasf 0) (nth 3 oasf 0).
Definition wire_header (oasf : list Z) : Z :=
  ntohl (nth 4 oasf 0) (nth 5 oasf 0) (nth 6 oasf 0) (nth 7 oasf 0).
Definition wire_value_length (oasf : list Z) : Z :=
  uint8_t (NXM_LENGTH (wire_header oasf)).

(* ================================================================== *)
(** ** Registries to run the operations on *)

Module Sample.

Definition nw_src : mf_field :=
  {| id := MFF_IPV4_SRC; name := "nw_src"; n_bytes := 4; n_bits := 32;
     writable := true; oxm_header := 0x80001604 |}.
Definition vlan_pcp : mf_field :=
  {| id := MFF_VLAN_PCP; name := "dl_vlan_pcp"; n_bytes := 1; n_bits := 3;
     writable := true; oxm_header := 0x80000e01 |}.
Definition reg0 : mf_field :=
  {| id := MFF_REG 0; name := "reg0"; n_bytes := 4; n_bits := 32;
     writable := true; oxm_header := 0x00010004 |}.
Definition ip_ttl : mf_field :=
  {| id := MFF_IP_TTL; name := "nw_ttl"; n_bytes := 1; n_bits := 8;
     writable := true; oxm_header := 0x00013a01 |}.

(** Two descriptors whose byte width is not the length their header
    declares. *)
Definition narrow : mf_field :=
  {| id := MFF_MPLS_TC; name := "mpls_tc"; n_bytes := 1; n_bits := 3;
     writable := true; oxm_header := 0x80004604 |}.
Definition wide : mf_field :=
  {| id := MFF_IPV6_LABEL; name := "ipv6_label"; n_bytes := 4; n_bits := 20;
     writable := true; oxm_header := 0x80003801 |}.

Definition lookup_header (table : list mf_field) (header : Z)
  : option mf_field :=
  find (fun mf => oxm_header mf =? header) table.

Definition lookup_name (table : list mf_field) (s : string)
  : option mf_field :=
  find (fun mf => String.eqb (name mf) s) table.

(** A value is valid when the bits above the field's width are zero in its
    first byte (for a one-byte field). *)
Definition is_value_valid (mf : mf_field) (v : mf_value) : bool :=
  if n_bytes mf =? 1 then nth 0 v 0 <? 2 ^ n_bits mf else true.

(** The big-endian number in a byte string, and back. *)
Fixpoint be_number (acc : Z) (bytes : list Z) : Z :=
  match bytes with
  | [] => acc
  | b :: rest => be_number (acc * 2 ^ 8 + b) rest
  end.

Fixpoint be_bytes (n : nat) (x : Z) : list Z :=
  match n with
  | O => []
  | S n' => be_bytes n' (x / 2 ^ 8) ++ [x mod 2 ^ 8]
  end.

(** The text of a value is its number in hexadecimal. *)
Definition format (mf : mf_field) (v : mf_value) : string :=
  HexString.of_Z (be_number 0 (firstn (Z.to_nat (n_bytes mf)) v)).

Definition parse_value (mf : mf_field) (s : string) (old : mf_value)
  : option string * mf_value :=
  let x := HexString.to_Z s in
  if String.eqb (HexString.of_Z x) s && (0 <=? x) && (x <? 2 ^ (8 * n_bytes mf))
  then (None, be_bytes (Z.to_nat (n_bytes mf)) x
                ++ skipn (Z.to_nat (n_bytes mf)) old)
  else (Some (s ++ ": bad value")%string, old).

Definition registry_of (table : list mf_field) : MetaFlow :=
  {| sizeof_mf_value := 16;
     mf_from_nxm_header := lookup_header table;
     mf_parse_oxm_name := lookup_name table;
     mf_is_value_valid := is_value_valid;
     mf_parse_value := parse_value;
     mf_format := format |}.

Definition registry : MetaFlow := registry_of [nw_src; vlan_pcp; reg0; ip_ttl].

Definition mismatched : MetaFlow := registry_of [narrow; wide].

End Sample.

(** A structural defect of a wire record: one of the checks the decoder
    makes before it appends an instruction fails. *)
Inductive structural_failure {registry : MetaFlow} (oasf : list Z) : Prop :=
| bad_length :
    wire_len oasf <> ROUND_UP (sizeof_oasf + wire_value_length oasf) 8 ->
    structural_failure oasf
| nonzero_padding (i b : Z) :
    sizeof_oasf + wire_value_length oasf <= i < wire_len oasf ->
    nth_error oasf (Z.to_nat i) = Some b -> b <> 0 ->
    structural_failure oasf
| mask_bit_set :
    NXM_HASMASK (wire_header oasf) = true ->
    structural_failure oasf
| unknown_header :
    mf_from_nxm_header (wire_header oasf) = None ->
    structural_failure oasf
| no_oxm_header (mf : mf_field) :
    mf_from_nxm_header (wire_header oasf) = Some mf -> oxm_header mf = 0 ->
    structural_failure oasf.

(** The instruction the decoder builds for descriptor [mf] from the
    record at [oasf]: [n_bytes mf] bytes from offset 8, in a zeroed union. *)
Definition decoded_load {registry : MetaFlow} (mf : mf_field) (oasf : list Z)
  : ofpact_reg_load :=
  {| compat := OFPUTIL_OFPAT12_SET_FIELD;
     dst := {| field := Some mf; ofs := 0; sf_n_bits := n_bits mf |};
     value := firstn (Z.to_nat (n_bytes mf)) (skipn 8 oasf)
              ++ repeat 0 (sizeof_mf_value - Z.to_nat (n_bytes mf)) |}.

(** A record passes the four structural checks of the decoder, resolves to
    [mf], and the memory at [oasf] and the union hold [n_bytes mf] bytes. *)
Record decodes_to {registry : MetaFlow} (oasf : list Z) (mf : mf_field)
  : Prop := {
  dt_struct : 8 <= Z.of_nat (List.length oasf);
  dt_length : wire_len oasf = ROUND_UP (sizeof_oasf + wire_value_length oasf) 8;
  dt_padding : forall i, sizeof_oasf + wire_value_length oasf <= i < wire_len oasf ->
                         nth_error oasf (Z.to_nat i) = Some 0;
  dt_unmasked : NXM_HASMASK (wire_header oasf) = false;
  dt_lookup : mf_from_nxm_header (wire_header oasf) = Some mf;
  dt_oxm : oxm_header mf <> 0;
  dt_source : sizeof_oasf + n_bytes mf <= Z.of_nat (List.length oasf);
  dt_union : 0 <= n_bytes mf <= Z.of_nat sizeof_mf_value
}.

(** What the registry has to guarantee of a field [f] for it to travel
    on the wire: its header is a 32-bit number without the mask bit, it
    resolves to [f], the length it declares is the byte width of [f], and
    the value union holds that many bytes. *)
Record on_the_wire {registry : MetaFlow} (f : mf_field) : Prop := {
  otw_uint32 : 0 <= oxm_header f < 2 ^ 32;
  otw_lookup : mf_from_nxm_header (oxm_header f) = Some f;
  otw_length : NXM_LENGTH (oxm_header f) = n_bytes f;
  otw_unmasked : NXM_HASMASK (oxm_header f) = false;
  otw_union : n_bytes f <= Z.of_nat sizeof_mf_value
}.

(** What the registry has to guarantee for the text of a value [val] of
    field [f] to be lossless: the text parses back to [val], it holds no
    delimiter, and the name of [f] is not empty and resolves to [f]. *)
Record text_lossless {registry : MetaFlow} (f : mf_field) (val : mf_value)
  : Prop := {
  tl_value : mf_parse_value f (mf_format f val) (repeat 0 sizeof_mf_value)
             = (None, val);
  tl_no_delimiter : strstr (mf_format f val) "->" = None;
  tl_name : mf_parse_oxm_name (name f) = Some f;
  tl_name_not_empty : name f <> EmptyString
}.

(** The error taxonomy of the specification. *)
Inductive ErrorKind : Type :=
| DisallowedField
| InvalidValue
| InvalidValueSyntax (message : string)
| BadLength
| BadPadding
| MaskedFieldNotSupported
| UnknownField
| UnknownFieldName
| SyntaxError.

(** The kind of failure each [ovs_fatal] call of the parser reports. *)
Definition error_kind (m : fatal_msg) : ErrorKind :=
  match m with
  | missing_arrow _ => SyntaxError
  | missing_field_name _ => SyntaxError
  | not_valid_oxm_field_name _ => UnknownFieldName
  | not_allowed_to_set _ => DisallowedField
  | parse_value_error message => InvalidValueSyntax message
  | not_valid_for_field _ _ => InvalidValue
  end.

(** The text parser as the specification words it (4.5, steps 1 to 7),
    with the library's [index] and [substring]: the first failing check
    decides the result. *)
Definition parse_spec {registry : MetaFlow} (text : string)
  : ErrorKind + ofpact_reg_load :=
  match index 0 "->" text with
  | None => inl SyntaxError
  | Some at_delimiter =>
      let value_text := substring 0 at_delimiter text in
      let field_name :=
        substring (at_delimiter + 2)
          (String.length text - (at_delimiter + 2)) text in
      if String.eqb field_name EmptyString then inl SyntaxError
      else
        match mf_parse_oxm_name field_name with
        | None => inl UnknownFieldName
        | Some descriptor =>
            if negb (set_field_mf_allowed descriptor) then inl DisallowedField
            else
              match mf_parse_value descriptor value_text
                      (repeat 0 sizeof_mf_value) with
              | (Some message, _) => inl (InvalidValueSyntax message)
              | (None, bytes) =>
                  if negb (mf_is_value_valid descriptor bytes) then
                    inl InvalidValue
                  else
                    inr {| compat := OFPUTIL_OFPAT12_SET_FIELD;
                           dst := {| field := Some descriptor; ofs := 0;
                                     sf_n_bits := n_bits descriptor |};
                           value := bytes |}
              end
        end
  end.

(* ================================================================== *)
(** * Properties *)

(** ** Memory *)

Lemma read_inside (mem : list Z) (i : Z) :
  0 <= i < Z.of_nat (List.length mem) ->
  read mem i = Returns (nth (Z.to_nat i) mem 0).
Proof.
  intros Hi. unfold read.
  destruct (nth_error mem (Z.to_nat i)) as [b|] eqn:E.
  - now rewrite (nth_error_nth _ _ 0 E).
  - apply nth_error_None in E. lia.
Qed.

Lemma read_be16_len (oasf : list Z) :
  8 <= Z.of_nat (List.length oasf) ->
  read_be16 oasf offsetof_len = Returns (wire_len oasf).
Proof.
  intros H. unfold read_be16, offsetof_len.
  rewrite !read_inside by lia. reflexivity.
Qed.

Lemma read_be32_field (oasf : list Z) :
  8 <= Z.of_nat (List.length oasf) ->
  read_be32 oasf offsetof_field = Returns (wire_header oasf).
Proof.
  intros H. unfold read_be32, offsetof_field.
  rewrite !read_inside by lia. reflexivity.
Qed.

(** The first steps of every proof about the decoder: unfold it and read
    the two header fields. *)
Ltac decode_header H :=
  unfold set_field_from_openflow;
  rewrite (read_be16_len _ H), (read_be32_field _ H);
  cbn [bind];
  fold (wire_value_length) in *.

Lemma padding_all_zero (oasf : list Z) (n : nat) : forall i : Z,
  0 <= i ->
  (forall k, i <= k < i + Z.of_nat n -> nth_error oasf (Z.to_nat k) = Some 0) ->
  padding_is_zero oasf i n = Returns true.
Proof.
  induction n as [|n IH]; intros i Hi Hz; [reflexivity|].
  cbn [padding_is_zero]. unfold read. rewrite (Hz i) by lia. cbn [bind].
  rewrite Z.eqb_refl. apply IH; [lia|]. intros k Hk. apply Hz. lia.
Qed.

Lemma padding_some_nonzero (oasf : list Z) (n : nat) : forall i j b : Z,
  0 <= i -> i <= j < i + Z.of_nat n ->
  nth_error oasf (Z.to_nat j) = Some b -> b <> 0 ->
  padding_is_zero oasf i n = Returns false.
Proof.
  induction n as [|n IH]; intros i j b Hi Hj Hb Hnz; [lia|].
  cbn [padding_is_zero]. unfold read.
  destruct (nth_error oasf (Z.to_nat i)) as [b'|] eqn:E.
  - cbn [bind]. destruct (b' =? 0) eqn:Eb; [|reflexivity].
    apply Z.eqb_eq in Eb. subst b'.
    assert (j <> i) by (intros ->; congruence).
    apply (IH (i + 1) j b); try assumption; lia.
  - apply nth_error_None in E.
    assert (Z.to_nat j < List.length oasf)%nat
      by (apply nth_error_Some; congruence).
    lia.
Qed.

Lemma padding_true_inv (oasf : list Z) (n : nat) : forall i : Z,
  0 <= i ->
  padding_is_zero oasf i n = Returns true ->
  forall k, i <= k < i + Z.of_nat n -> nth_error oasf (Z.to_nat k) = Some 0.
Proof.
  induction n as [|n IH]; intros i Hi Hp k Hk; [lia|].
  cbn [padding_is_zero] in Hp. unfold read in Hp.
  destruct (nth_error oasf (Z.to_nat i)) as [b|] eqn:E; [|discriminate].
  cbn [bind] in Hp. destruct (b =? 0) eqn:Eb; [|discriminate].
  apply Z.eqb_eq in Eb. subst b.
  destruct (Z.eq_dec k i) as [->|Hne]; [assumption|].
  apply (IH (i + 1)); [lia|assumption|lia].
Qed.

Lemma padding_readable (oasf : list Z) (n : nat) : forall i : Z,
  0 <= i -> i + Z.of_nat n <= Z.of_nat (List.length oasf) ->
  exists z, padding_is_zero oasf i n = Returns z.
Proof.
  induction n as [|n IH]; intros i Hi Hn; [now exists true|].
  cbn [padding_is_zero]. rewrite read_inside by lia. cbn [bind].
  destruct (_ =? 0); [apply IH; lia | now exists false].
Qed.

Lemma wire_value_length_range (oasf : list Z) :
  0 <= wire_value_length oasf < 256.
Proof. unfold wire_value_length, uint8_t. apply Z.mod_pos_bound. lia. Qed.

Lemma ROUND_UP_8_ge (x : Z) : x <= ROUND_UP x 8 < x + 8.
Proof.
  unfold ROUND_UP.
  pose proof (Z.div_mod (x + (8 - 1)) 8 ltac:(lia)).
  pose proof (Z.mod_pos_bound (x + (8 - 1)) 8 ltac:(lia)). lia.
Qed.

(** ** The decoder, check by check *)

Section Decoder.

Context {registry : MetaFlow}.
Variables (oasf : list Z) (ofpacts : list ofpact).
Hypothesis Hstruct : 8 <= Z.of_nat (List.length oasf).

Lemma decode_bad_length :
  wire_len oasf <> ROUND_UP (sizeof_oasf + wire_value_length oasf) 8 ->
  set_field_from_openflow oasf ofpacts
  = Returns (OFPERR_OFPBAC_BAD_ARGUMENT, ofpacts).
Proof.
  intros Hlen. decode_header Hstruct.
  apply Z.eqb_neq in Hlen. unfold wire_value_length in Hlen.
  now rewrite Hlen.
Qed.

(** Past the length check, the decoder is its padding loop followed by
    the remaining checks. *)
Lemma decode_good_length :
  wire_len oasf = ROUND_UP (sizeof_oasf + wire_value_length oasf) 8 ->
  set_field_from_openflow oasf ofpacts
  = (zero <- padding_is_zero oasf (sizeof_oasf + wire_value_length oasf)
               (Z.to_nat (wire_len oasf
                          - (sizeof_oasf + wire_value_length oasf))) ;;
     if negb zero then Returns (OFPERR_OFPBAC_BAD_ARGUMENT, ofpacts)
     else if NXM_HASMASK (wire_header oasf) then
       Returns (OFPERR_OFPBAC_BAD_ARGUMENT, ofpacts)
     else
       match mf_from_nxm_header (wire_header oasf) with
       | None => Returns (OFPERR_OFPBAC_BAD_ARGUMENT, ofpacts)
       | Some mf =>
           if oxm_header mf =? 0 then
             Returns (OFPERR_OFPBAC_BAD_ARGUMENT, ofpacts)
           else
             v <- memcpy (repeat 0 sizeof_mf_value)
                    (skipn (Z.to_nat sizeof_oasf) oasf) (n_bytes mf) ;;
             e <- nxm_reg_load_check
                    {| compat := OFPUTIL_OFPAT12_SET_FIELD;
                       dst := {| field := Some mf; ofs := 0;
                                 sf_n_bits := n_bits mf |};
                       value := v |} None ;;
             Returns (e, ofpacts
                         ++ [OFPACT_REG_LOAD
                               {| compat := OFPUTIL_OFPAT12_SET_FIELD;
                                  dst := {| field := Some mf; ofs := 0;
                                            sf_n_bits := n_bits mf |};
                                  value := v |}])
       end).
Proof.
  intros Hlen. decode_header Hstruct.
  apply Z.eqb_eq in Hlen. unfold wire_value_length in Hlen |- *.
  rewrite Hlen. reflexivity.
Qed.

Lemma decode_nonzero_padding (i b : Z) :
  wire_len oasf = ROUND_UP (sizeof_oasf + wire_value_length oasf) 8 ->
  sizeof_oasf + wire_value_length oasf <= i < wire_len oasf ->
  nth_error oasf (Z.to_nat i) = Some b -> b <> 0 ->
  set_field_from_openflow oasf ofpacts
  = Returns (OFPERR_OFPBAC_BAD_ARGUMENT, ofpacts).
Proof.
  intros Hlen Hi Hb Hnz. rewrite (decode_good_length Hlen).
  pose proof (wire_value_length_range oasf) as Hr. unfold sizeof_oasf in *.
  rewrite (padding_some_nonzero oasf _ _ i b); try assumption; try lia.
  reflexivity.
Qed.

(** Past the length check, with the declared bytes readable, the padding
    loop gives a verdict. *)
Lemma padding_verdict :
  wire_len oasf = ROUND_UP (sizeof_oasf + wire_value_length oasf) 8 ->
  wire_len oasf <= Z.of_nat (List.length oasf) ->
  exists zero,
    padding_is_zero oasf (sizeof_oasf + wire_value_length oasf)
      (Z.to_nat (wire_len oasf - (sizeof_oasf + wire_value_length oasf)))
    = Returns zero.
Proof.
  intros Hlen Hread. pose proof (wire_value_length_range oasf) as Hr.
  pose proof (ROUND_UP_8_ge (sizeof_oasf + wire_value_length oasf)).
  unfold sizeof_oasf in *. apply padding_readable; lia.
Qed.

Lemma decode_masked :
  wire_len oasf <= Z.of_nat (List.length oasf) ->
  NXM_HASMASK (wire_header oasf) = true ->
  set_field_from_openflow oasf ofpacts
  = Returns (OFPERR_OFPBAC_BAD_ARGUMENT, ofpacts).
Proof.
  intros Hread Hmask.
  destruct (Z.eq_dec (wire_len oasf)
              (ROUND_UP (sizeof_oasf + wire_value_length oasf) 8)) as [Hlen|Hlen];
    [|now apply decode_bad_length].
  rewrite (decode_good_length Hlen).
  destruct (padding_verdict Hlen Hread) as [zero ->]. cbn [bind].
  rewrite Hmask. now destruct zero.
Qed.

Lemma decode_unresolved :
  wire_len oasf <= Z.of_nat (List.length oasf) ->
  (mf_from_nxm_header (wire_header oasf) = None
   \/ exists mf, mf_from_nxm_header (wire_header oasf) = Some mf
                 /\ oxm_header mf = 0) ->
  set_field_from_openflow oasf ofpacts
  = Returns (OFPERR_OFPBAC_BAD_ARGUMENT, ofpacts).
Proof.
  intros Hread Hmf.
  destruct (Z.eq_dec (wire_len oasf)
              (ROUND_UP (sizeof_oasf + wire_value_length oasf) 8)) as [Hlen|Hlen];
    [|now apply decode_bad_length].
  rewrite (decode_good_length Hlen).
  destruct (padding_verdict Hlen Hread) as [zero ->]. cbn [bind].
  destruct zero; [|reflexivity]. cbn [negb].
  destruct (NXM_HASMASK _); [reflexivity|].
  destruct Hmf as [->|(mf & -> & ->)]; reflexivity.
Qed.

Lemma decode_structural_failure :
  wire_len oasf <= Z.of_nat (List.length oasf) ->
  structural_failure oasf ->
  set_field_from_openflow oasf ofpacts
  = Returns (OFPERR_OFPBAC_BAD_ARGUMENT, ofpacts).
Proof.
  intros Hread [Hlen|i b Hi Hb Hnz|Hmask|Hnone|mf Hmf Hz].
  - now apply decode_bad_length.
  - destruct (Z.eq_dec (wire_len oasf)
                (ROUND_UP (sizeof_oasf + wire_value_length oasf) 8)) as [Hlen|Hlen].
    + now apply (decode_nonzero_padding i b).
    + now apply decode_bad_length.
  - now apply decode_masked.
  - apply decode_unresolved; auto.
  - apply decode_unresolved; eauto.
Qed.

End Decoder.

Lemma skipn_repeat {A : Type} (x : A) (n : nat) : forall m : nat,
  skipn n (repeat x m) = repeat x (m - n).
Proof.
  induction n as [|n IH]; intros [|m]; cbn; auto.
Qed.

Lemma memcpy_into_zeroed (src : list Z) (n : Z) (size : nat) :
  0 <= n <= Z.of_nat (List.length src) -> n <= Z.of_nat size ->
  memcpy (repeat 0 size) src n
  = Returns (firstn (Z.to_nat n) src ++ repeat 0 (size - Z.to_nat n)).
Proof.
  intros Hsrc Hdst. unfold memcpy, read_bytes.
  destruct (Z.leb_spec n (Z.of_nat (List.length src))); [|lia]. cbn [bind].
  rewrite repeat_length.
  destruct (Z.leb_spec n (Z.of_nat size)); [|lia].
  f_equal. f_equal.
  rewrite skipn_repeat. reflexivity.
Qed.

(** A record that passes the structural checks and resolves to [mf]: the
    instruction is appended, and the verdict is the validator's. *)
Lemma decode_past_lookup {registry : MetaFlow} (oasf : list Z) (mf : mf_field)
    (ofpacts : list ofpact) :
  decodes_to oasf mf ->
  set_field_from_openflow oasf ofpacts
  = (e <- set_field_check (decoded_load mf oasf) None ;;
     Returns (e, ofpacts ++ [OFPACT_REG_LOAD (decoded_load mf oasf)])).
Proof.
  intros [Hs Hlen Hpad Hmask Hmf Hoxm Hsrc Hdst].
  rewrite (decode_good_length oasf ofpacts Hs Hlen).
  pose proof (wire_value_length_range oasf) as Hr. unfold sizeof_oasf in *.
  rewrite padding_all_zero; [|lia|].
  2:{ intros k Hk. apply Hpad. pose proof (ROUND_UP_8_ge (8 + wire_value_length oasf)). lia. }
  cbn [bind negb]. rewrite Hmask, Hmf.
  apply Z.eqb_neq in Hoxm. rewrite Hoxm.
  rewrite memcpy_into_zeroed; [reflexivity| |lia].
  rewrite length_skipn. lia.
Qed.

(** ** The validator *)

Lemma set_field_check_returns {registry : MetaFlow} (load : ofpact_reg_load)
    (mf : mf_field) (fl : option flow) :
  compat load = OFPUTIL_OFPAT12_SET_FIELD ->
  field (dst load) = Some mf ->
  set_field_check load fl
  = Returns (if set_field_mf_allowed mf && mf_is_value_valid mf (value load)
             then OFPERR_0 else OFPERR_OFPBAC_BAD_ARGUMENT).
Proof.
  intros Hc Hf. unfold set_field_check. rewrite Hc, Hf. cbn.
  now destruct (set_field_mf_allowed mf), (mf_is_value_valid mf (value load)).
Qed.

(** C3 (as amended).  On a set-field instruction (its [compat] says so and
    its target is set) the validator returns to its caller in every case:
    [OFPERR_OFPBAC_BAD_ARGUMENT] when the target is not allowed; otherwise
    the same [OFPERR_OFPBAC_BAD_ARGUMENT] when the registry rejects the
    value; otherwise 0.  Its result is a function of the instruction alone
    (the flow argument is not read, nothing is written). *)
Theorem set_field_check_verdict {registry : MetaFlow} (load : ofpact_reg_load)
    (mf : mf_field) (fl : option flow)
    (Hcompat : compat load = OFPUTIL_OFPAT12_SET_FIELD)
    (Htarget : field (dst load) = Some mf) :
  (set_field_mf_allowed mf = false ->
   set_field_check load fl = Returns OFPERR_OFPBAC_BAD_ARGUMENT)
  /\ (set_field_mf_allowed mf = true ->
      mf_is_value_valid mf (value load) = false ->
      set_field_check load fl = Returns OFPERR_OFPBAC_BAD_ARGUMENT)
  /\ (set_field_mf_allowed mf = true ->
      mf_is_value_valid mf (value load) = true ->
      set_field_check load fl = Returns OFPERR_0)
  /\ set_field_check load fl = set_field_check load None.
Proof.
  rewrite !(set_field_check_returns load mf) by assumption.
  repeat split; intros; repeat match goal with H : _ = _ |- _ => rewrite H end;
    reflexivity.
Qed.

Lemma set_field_check_verdict_witness :
  @set_field_check Sample.registry
    (@SetFieldAction Sample.registry Sample.vlan_pcp [8]) None
  = Returns OFPERR_OFPBAC_BAD_ARGUMENT.
Proof.
  apply (@set_field_check_verdict Sample.registry
           (@SetFieldAction Sample.registry Sample.vlan_pcp [8])
           Sample.vlan_pcp None eq_refl eq_refl); reflexivity.
Defined.

(** C3 (as stated, refuted).  A target outside of the allow-list and a
    value the registry rejects for an allowed target make the validator
    return one and the same error: the two failures are not distinct error
    kinds. *)
Lemma set_field_check_one_error_kind :
  set_field_mf_allowed Sample.reg0 = false
  /\ set_field_mf_allowed Sample.vlan_pcp = true
  /\ @mf_is_value_valid Sample.registry Sample.vlan_pcp
       (value (@SetFieldAction Sample.registry Sample.vlan_pcp [8])) = false
  /\ @set_field_check Sample.registry
       (@SetFieldAction Sample.registry Sample.reg0 [0; 0; 0; 1]) None
     = @set_field_check Sample.registry
         (@SetFieldAction Sample.registry Sample.vlan_pcp [8]) None.
Proof. repeat split. Qed.

(** ** The decoder's structural checks *)

(** C4.  A record whose declared total length is not the fixed size plus
    the declared value length, rounded up to a multiple of 8, is refused:
    the decoder returns its error and leaves the buffer as it was, whatever
    the rest of the record and whatever the registry (no other check comes
    first).  For declared value lengths 0, 1, 7, 8 and 9 the one accepted
    total length is 8, 16, 16, 16 and 24. *)
Theorem decode_length_check {registry : MetaFlow} (oasf : list Z)
    (ofpacts : list ofpact)
    (Hstruct : 8 <= Z.of_nat (List.length oasf))
    (Hlen : wire_len oasf
            <> ROUND_UP (sizeof_oasf + wire_value_length oasf) 8) :
  set_field_from_openflow oasf ofpacts
  = Returns (OFPERR_OFPBAC_BAD_ARGUMENT, ofpacts)
  /\ map (fun n => ROUND_UP (sizeof_oasf + n) 8) [0; 1; 7; 8; 9]
     = [8; 16; 16; 16; 24].
Proof.
  split; [now apply decode_bad_length | reflexivity].
Qed.

Lemma decode_length_check_witness :
  Forall (fun oasf =>
            @set_field_from_openflow Sample.registry oasf []
            = Returns (OFPERR_OFPBAC_BAD_ARGUMENT, []))
    [ [0; 25; 0; 16; 128; 0; 22; 0];
      [0; 25; 0; 8; 128; 0; 22; 1];
      [0; 25; 0; 15; 128; 0; 22; 7];
      [0; 25; 0; 24; 128; 0; 22; 8];
      [0; 25; 0; 16; 128; 0; 22; 9] ].
Proof.
  repeat (apply Forall_cons;
          [apply (@decode_length_check Sample.registry);
           [vm_compute; discriminate | vm_compute; discriminate]|]).
  apply Forall_nil.
Defined.

(** C5.  On a record whose declared length obeys the rounding rule, a
    non-zero byte anywhere between the end of the declared value and the
    declared length makes the decoder return its error with the buffer
    untouched; and the decoder returns success only on records whose bytes
    in that region are all zero. *)
Theorem decode_padding_check {registry : MetaFlow} (oasf : list Z)
    (ofpacts : list ofpact)
    (Hstruct : 8 <= Z.of_nat (List.length oasf))
    (Hlen : wire_len oasf
            = ROUND_UP (sizeof_oasf + wire_value_length oasf) 8) :
  (forall i b,
      sizeof_oasf + wire_value_length oasf <= i < wire_len oasf ->
      nth_error oasf (Z.to_nat i) = Some b -> b <> 0 ->
      set_field_from_openflow oasf ofpacts
      = Returns (OFPERR_OFPBAC_BAD_ARGUMENT, ofpacts))
  /\ (forall buf,
         set_field_from_openflow oasf ofpacts = Returns (OFPERR_0, buf) ->
         forall i, sizeof_oasf + wire_value_length oasf <= i < wire_len oasf ->
                   nth_error oasf (Z.to_nat i) = Some 0).
Proof.
  split.
  - intros i b Hi Hb Hnz. now apply (decode_nonzero_padding _ _ Hstruct i b).
  - intros buf Hok i Hi.
    rewrite (decode_good_length _ _ Hstruct Hlen) in Hok.
    pose proof (wire_value_length_range oasf) as Hr. unfold sizeof_oasf in *.
    destruct (padding_is_zero oasf _ _) as [[|]| | |] eqn:Hp; try discriminate.
    refine (padding_true_inv oasf _ (8 + wire_value_length oasf) _ Hp i _); lia.
Qed.

Lemma decode_padding_check_witness :
  @set_field_from_openflow Sample.registry
    [0; 25; 0; 16; 128; 0; 14; 1; 5; 0; 0; 0; 0; 0; 0; 1] []
  = Returns (OFPERR_OFPBAC_BAD_ARGUMENT, []).
Proof.
  refine (proj1 (@decode_padding_check Sample.registry
                   [0; 25; 0; 16; 128; 0; 14; 1; 5; 0; 0; 0; 0; 0; 0; 1] []
                   _ _) 15 1 _ _ _).
  - vm_compute; discriminate.
  - reflexivity.
  - vm_compute; split; [discriminate | reflexivity].
  - reflexivity.
  - discriminate.
Defined.

(** C6.  A record whose field-header code has the mask bit set is refused
    whatever else it holds: the decoder returns its error and leaves the
    buffer as it was.  The registry plays no part (the statement holds for
    every registry: the lookup is not reached).  The length check and the
    padding loop run first: with the mask bit set the decoder is the length
    check, then the reads of the padding loop, then the error whatever the
    loop found. *)
Theorem decode_mask_check {registry : MetaFlow} (oasf : list Z)
    (ofpacts : list ofpact)
    (Hstruct : 8 <= Z.of_nat (List.length oasf))
    (Hread : wire_len oasf <= Z.of_nat (List.length oasf))
    (Hmask : NXM_HASMASK (wire_header oasf) = true) :
  set_field_from_openflow oasf ofpacts
  = Returns (OFPERR_OFPBAC_BAD_ARGUMENT, ofpacts)
  /\ set_field_from_openflow oasf ofpacts
     = (if wire_len oasf =? ROUND_UP (sizeof_oasf + wire_value_length oasf) 8
        then
          _ <- padding_is_zero oasf (sizeof_oasf + wire_value_length oasf)
                 (Z.to_nat (wire_len oasf
                            - (sizeof_oasf + wire_value_length oasf))) ;;
          Returns (OFPERR_OFPBAC_BAD_ARGUMENT, ofpacts)
        else Returns (OFPERR_OFPBAC_BAD_ARGUMENT, ofpacts)).
Proof.
  split; [now apply decode_masked|].
  destruct (Z.eqb_spec (wire_len oasf)
              (ROUND_UP (sizeof_oasf + wire_value_length oasf) 8)) as [Hlen|Hlen];
    [|now apply decode_bad_length].
  rewrite (decode_good_length oasf ofpacts Hstruct Hlen).
  destruct (padding_is_zero oasf _ _) as [[|]| | |]; cbn [bind negb];
    try reflexivity.
  now rewrite Hmask.
Qed.

Lemma decode_mask_check_witness :
  @set_field_from_openflow Sample.registry
    [0; 25; 0; 16; 128; 0; 23; 4; 10; 0; 0; 1; 0; 0; 0; 0] []
  = Returns (OFPERR_OFPBAC_BAD_ARGUMENT, []).
Proof.
  refine (proj1 (@decode_mask_check Sample.registry
                   [0; 25; 0; 16; 128; 0; 23; 4; 10; 0; 0; 1; 0; 0; 0; 0] []
                   _ _ _)).
  - vm_compute; discriminate.
  - vm_compute; discriminate.
  - reflexivity.
Defined.

(** C10.  On a record with a structural defect (bad length, non-zero
    padding, mask bit, header that resolves to no descriptor or to one
    without an OXM header) the decoder returns its error with the buffer
    exactly as the caller passed it.  The instruction is appended only once
    all of these checks have passed: whenever the decoder returns, the
    buffer is either untouched or it is the buffer followed by the one
    instruction decoded from a record that passed every structural
    check. *)
Theorem decode_structural_failure_keeps_buffer {registry : MetaFlow}
    (oasf : list Z) (ofpacts : list ofpact)
    (Hstruct : 8 <= Z.of_nat (List.length oasf))
    (Hread : wire_len oasf <= Z.of_nat (List.length oasf)) :
  (structural_failure oasf ->
   set_field_from_openflow oasf ofpacts
   = Returns (OFPERR_OFPBAC_BAD_ARGUMENT, ofpacts))
  /\ (forall e buf,
         set_field_from_openflow oasf ofpacts = Returns (e, buf) ->
         buf = ofpacts
         \/ (~ structural_failure oasf
             /\ exists mf,
                 mf_from_nxm_header (wire_header oasf) = Some mf
                 /\ buf = ofpacts ++ [OFPACT_REG_LOAD (decoded_load mf oasf)])).
Proof.
  split; [now apply decode_structural_failure|].
  intros e buf Hret.
  destruct (Z.eq_dec (wire_len oasf)
              (ROUND_UP (sizeof_oasf + wire_value_length oasf) 8)) as [Hlen|Hlen].
  2:{ rewrite (decode_bad_length oasf ofpacts Hstruct Hlen) in Hret.
      left. congruence. }
  rewrite (decode_good_length oasf ofpacts Hstruct Hlen) in Hret.
  destruct (padding_is_zero oasf _ _) as [[|]| | |] eqn:Hpad;
    cbn [bind negb] in Hret; try discriminate; [|left; congruence].
  destruct (NXM_HASMASK (wire_header oasf)) eqn:Hmask; [left; congruence|].
  destruct (mf_from_nxm_header (wire_header oasf)) as [mf|] eqn:Hmf;
    [|left; congruence].
  destruct (Z.eqb_spec (oxm_header mf) 0) as [Hz|Hnz]; [left; congruence|].
  right. split.
  - pose proof (wire_value_length_range oasf) as Hr.
    intros [Hbad|i b Hi Hb Hb0|Hm|Hnone|mf' Hmf' Hz'];
      try congruence.
    unfold sizeof_oasf in *.
    assert (Hz0 : nth_error oasf (Z.to_nat i) = Some 0)
      by (refine (padding_true_inv oasf _ (8 + wire_value_length oasf)
                    _ Hpad i _); lia).
    congruence.
  - exists mf. split; [reflexivity|].
    unfold memcpy, read_bytes in Hret.
    destruct (n_bytes mf <=? _); cbn [bind] in Hret; [|discriminate].
    destruct (n_bytes mf <=? _); cbn [bind] in Hret; [|discriminate].
    rewrite skipn_repeat in Hret.
    destruct (nxm_reg_load_check _ None); cbn [bind] in Hret;
      try discriminate.
    injection Hret as _ <-. reflexivity.
Qed.

Lemma decode_structural_failure_keeps_buffer_witness :
  @set_field_from_openflow Sample.registry
    [0; 25; 0; 16; 128; 0; 99; 4; 10; 0; 0; 1; 0; 0; 0; 0]
    [OFPACT_OTHER [1; 2; 3]]
  = Returns (OFPERR_OFPBAC_BAD_ARGUMENT, [OFPACT_OTHER [1; 2; 3]]).
Proof.
  refine (proj1 (@decode_structural_failure_keeps_buffer Sample.registry
                   [0; 25; 0; 16; 128; 0; 99; 4; 10; 0; 0; 1; 0; 0; 0; 0]
                   [OFPACT_OTHER [1; 2; 3]] _ _) _).
  - vm_compute; discriminate.
  - vm_compute; discriminate.
  - apply unknown_header. reflexivity.
Defined.

(** ** Strings *)

Lemma prefix_arrow_app (c : ascii) (v k : string) :
  prefix "->" (String c v) = false ->
  prefix "->" (String c (v ++ "->" ++ k)) = false.
Proof.
  cbn -[ascii_dec]. destruct (ascii_dec "-" c) as [_|]; [|reflexivity].
  destruct v as [|d v]; cbn -[ascii_dec]; [reflexivity|].
  destruct (ascii_dec ">" d); [|reflexivity].
  now destruct v.
Qed.

(** The first delimiter of [v ++ "->" ++ k] is at the end of [v] when [v]
    holds none. *)
Lemma strstr_app_arrow (k : string) : forall v : string,
  strstr v "->" = None ->
  strstr (v ++ "->" ++ k) "->" = Some (String.length v).
Proof.
  induction v as [|c v IH]; intros Hv; [now destruct k|].
  cbn [strstr] in Hv.
  destruct (prefix "->" (String c v)) eqn:Hp; [discriminate|].
  destruct (strstr v "->") eqn:Hs; [discriminate|].
  change (String c v ++ "->" ++ k)%string with (String c (v ++ "->" ++ k)).
  cbn [strstr]. rewrite (prefix_arrow_app c v k Hp), (IH eq_refl).
  reflexivity.
Qed.

Lemma str_from_app (s : string) : forall v : string,
  str_from (String.length v) (v ++ s) = s.
Proof. induction v as [|c v IH]; cbn; auto. Qed.

Lemma str_from_add (n : nat) : forall (m : nat) (s : string),
  str_from (m + n) s = str_from n (str_from m s).
Proof.
  induction m as [|m IH]; intros s; [reflexivity|].
  destruct s as [|c s]; cbn.
  - now destruct n.
  - apply IH.
Qed.

Lemma str_upto_app (s : string) : forall v : string,
  str_upto (String.length v) (v ++ s) = v.
Proof. induction v as [|c v IH]; cbn; [now destruct s | now rewrite IH]. Qed.

(** The library's [index] and [substring] against the C idioms. *)
Lemma index_strstr (needle : string) : forall haystack : string,
  needle <> EmptyString ->
  index 0 needle haystack = strstr haystack needle.
Proof.
  intros haystack Hne. induction haystack as [|c h IH]; cbn -[ascii_dec].
  - destruct needle; [contradiction | reflexivity].
  - destruct needle as [|a needle]; [contradiction|].
    cbn -[ascii_dec] in *.
    destruct (ascii_dec a c); [destruct (prefix needle h)|];
      try reflexivity; rewrite IH; now destruct (strstr h (String a needle)).
Qed.

Lemma substring_upto (n : nat) : forall s : string,
  substring 0 n s = str_upto n s.
Proof.
  induction n as [|n IH]; intros [|c s]; cbn; auto. now rewrite IH.
Qed.

Lemma substring_all : forall s : string, substring 0 (String.length s) s = s.
Proof. induction s as [|c s IH]; cbn; auto. now rewrite IH. Qed.

Lemma length_str_from (n : nat) : forall s : string,
  String.length (str_from n s) = (String.length s - n)%nat.
Proof.
  induction n as [|n IH]; intros [|c s]; cbn; auto.
Qed.

Lemma substring_from (n : nat) : forall s : string,
  substring n (String.length s - n) s = str_from n s.
Proof.
  induction n as [|n IH]; intros s.
  - rewrite Nat.sub_0_r. apply substring_all.
  - destruct s as [|c s]; cbn; auto.
Qed.

Lemma eqb_empty (s : string) :
  String.eqb s EmptyString = (String.length s =? 0)%nat.
Proof. now destruct s. Qed.

(** ** The text parser *)

(** On [v ++ "->" ++ key], with no delimiter in [v] and a key that is not
    empty, the parser finds the delimiter at the end of [v], the key after
    it and the value text before it. *)
Lemma parse_at_delimiter (v key : string) :
  strstr v "->" = None -> key <> EmptyString ->
  let arg := (v ++ "->" ++ key)%string in
  strstr arg "->" = Some (String.length v)
  /\ (String.length (str_from (String.length v) arg)
      <=? String.length "->")%nat = false
  /\ str_from (String.length v + String.length "->") arg = key
  /\ str_upto (String.length v) arg = v.
Proof.
  intros Hv Hkey arg. subst arg. repeat split.
  - now apply strstr_app_arrow.
  - rewrite str_from_app. apply Nat.leb_gt.
    destruct key; [contradiction | cbn; lia].
  - now rewrite str_from_add, str_from_app.
  - apply str_upto_app.
Qed.

Section Parser.

Context {registry : MetaFlow}.
Variables (v key : string) (mf : mf_field) (ofpacts : list ofpact).
Hypothesis Hv : strstr v "->" = None.
Hypothesis Hkey : key <> EmptyString.
Hypothesis Hmf : mf_parse_oxm_name key = Some mf.

Lemma parse_not_allowed :
  set_field_mf_allowed mf = false ->
  set_field_parse (v ++ "->" ++ key) ofpacts = Exits (not_allowed_to_set key).
Proof.
  intros Hno. destruct (parse_at_delimiter v key Hv Hkey) as (Hs & Hl & Hk & Hu).
  unfold set_field_parse. cbv zeta. rewrite Hs, Hl, Hk, Hmf, Hno.
  reflexivity.
Qed.

Lemma parse_accepts (val : mf_value) :
  set_field_mf_allowed mf = true ->
  mf_parse_value mf v (repeat 0 sizeof_mf_value) = (None, val) ->
  mf_is_value_valid mf val = true ->
  set_field_parse (v ++ "->" ++ key) ofpacts
  = Returns (ofpacts
             ++ [OFPACT_REG_LOAD
                   {| compat := OFPUTIL_OFPAT12_SET_FIELD;
                      dst := {| field := Some mf; ofs := 0;
                                sf_n_bits := n_bits mf |};
                      value := val |}]).
Proof.
  intros Hyes Hval Hvalid.
  destruct (parse_at_delimiter v key Hv Hkey) as (Hs & Hl & Hk & Hu).
  unfold set_field_parse. cbv zeta. rewrite Hs, Hl, Hk, Hmf, Hyes, Hu.
  cbn [negb ofpact_put_REG_LOAD value]. rewrite Hval, Hvalid.
  reflexivity.
Qed.

End Parser.

(** C8 (as amended).  The parser makes the checks of the specification in
    the specification's order, and the first one that fails decides; but it
    reports the failure through [ovs_fatal], which ends the process, instead
    of handing a typed failure to its caller.  Against the parser worded
    after the specification: where that one fails with a kind, the code
    exits with the message of that kind (SyntaxError for a missing delimiter
    or nothing after it, UnknownFieldName, DisallowedField before the value
    is parsed, InvalidValueSyntax with the registry's message,
    InvalidValue); where that one yields an action, the code returns with
    the action appended to the buffer. *)
Theorem set_field_parse_first_failure {registry : MetaFlow} (arg : string)
    (ofpacts : list ofpact) :
  match parse_spec arg with
  | inl kind =>
      exists m, set_field_parse arg ofpacts = Exits m /\ error_kind m = kind
  | inr action =>
      set_field_parse arg ofpacts
      = Returns (ofpacts ++ [OFPACT_REG_LOAD action])
  end.
Proof.
  unfold parse_spec, set_field_parse. cbv zeta.
  rewrite index_strstr by discriminate.
  destruct (strstr arg "->") as [i|]; [|eexists; split; reflexivity].
  rewrite substring_upto, substring_from, eqb_empty, !length_str_from.
  change (String.length "->") with 2%nat.
  destruct (Nat.leb_spec (String.length arg - i) 2) as [Hle|Hgt].
  { replace (String.length arg - (i + 2) =? 0)%nat with true
      by (symmetry; apply Nat.eqb_eq; lia).
    eexists; split; reflexivity. }
  replace (String.length arg - (i + 2) =? 0)%nat with false
    by (symmetry; apply Nat.eqb_neq; lia).
  destruct (mf_parse_oxm_name (str_from (i + 2) arg)) as [mf|];
    [|eexists; split; reflexivity].
  destruct (set_field_mf_allowed mf); cbn [negb];
    [|eexists; split; reflexivity].
  cbn [ofpact_put_REG_LOAD value].
  destruct (mf_parse_value mf (str_upto i arg) (repeat 0 sizeof_mf_value))
    as [[message|] bytes]; [eexists; split; reflexivity|].
  destruct (mf_is_value_valid mf bytes); cbn [negb];
    [reflexivity | eexists; split; reflexivity].
Qed.

(** C8 (as stated, refuted).  On a text without delimiter the parser does
    not return to its caller: the process ends in [ovs_fatal]. *)
Lemma set_field_parse_ends_the_process :
  @set_field_parse Sample.registry "1.2.3.4" []
  = Exits (missing_arrow "1.2.3.4")
  /\ returns_to_caller (@set_field_parse Sample.registry "1.2.3.4" []) = false
  /\ fatal_text (missing_arrow "1.2.3.4") = "1.2.3.4: missing `->'"%string.
Proof. repeat split. Qed.

(** C9.  For an allowed field [f] and a value the registry accepts, whose
    text is lossless, the formatter writes "set_field:", the value text,
    "->" and the name of [f]; and the parser, given what follows
    "set_field:", returns with the very same action appended. *)
Theorem text_round_trip {registry : MetaFlow} (f : mf_field) (v : list Z)
    (ofpacts : list ofpact)
    (Hallowed : set_field_mf_allowed f = true)
    (Hvalid : mf_is_value_valid f (value (SetFieldAction f v)) = true)
    (Htext : text_lossless f (value (SetFieldAction f v))) :
  set_field_format (SetFieldAction f v) EmptyString
  = Returns ("set_field:"
             ++ (mf_format f (value (SetFieldAction f v)) ++ "->" ++ name f))%string
  /\ set_field_parse
       (mf_format f (value (SetFieldAction f v)) ++ "->" ++ name f) ofpacts
     = Returns (ofpacts ++ [OFPACT_REG_LOAD (SetFieldAction f v)]).
Proof.
  destruct Htext as [Hval Hno Hname Hne]. split; [reflexivity|].
  now rewrite (parse_accepts _ _ f ofpacts Hno Hne Hname _ Hallowed Hval Hvalid).
Qed.

Lemma text_round_trip_witness :
  @set_field_format Sample.registry
    (@SetFieldAction Sample.registry Sample.vlan_pcp [5]) EmptyString
  = Returns "set_field:0x5->dl_vlan_pcp"%string
  /\ @set_field_parse Sample.registry "0x5->dl_vlan_pcp" [OFPACT_OTHER [7]]
     = Returns [OFPACT_OTHER [7];
                OFPACT_REG_LOAD
                  (@SetFieldAction Sample.registry Sample.vlan_pcp [5])].
Proof.
  apply (@text_round_trip Sample.registry Sample.vlan_pcp [5]
           [OFPACT_OTHER [7]]).
  - reflexivity.
  - reflexivity.
  - constructor; [reflexivity | reflexivity | reflexivity | discriminate].
Defined.

(** ** The allow-list *)

Lemma set_field_mf_allowed_iff (mf : mf_field) :
  set_field_mf_allowed mf = true
  <-> writable mf = true /\ oxm_header mf <> 0 /\ In (id mf) AllowSet.
Proof.
  unfold set_field_mf_allowed. split.
  - intros H. destruct (writable mf); [|discriminate].
    destruct (Z.eqb_spec (oxm_header mf) 0); [discriminate|].
    cbn [negb orb] in H. repeat split; [assumption|].
    destruct (id mf); try discriminate H; cbn;
      repeat first [left; reflexivity | right].
  - intros (Hw & Hh & Hin). rewrite Hw.
    destruct (Z.eqb_spec (oxm_header mf) 0); [contradiction|].
    cbn [negb orb]. unfold AllowSet in Hin. cbn [In] in Hin.
    repeat destruct Hin as [<-|Hin]; try reflexivity. contradiction.
Qed.

Lemma outside_AllowSet (mf : mf_field) :
  ~ In (id mf) AllowSet -> set_field_mf_allowed mf = false.
Proof.
  intros Hout. destruct (set_field_mf_allowed mf) eqn:E; [|reflexivity].
  apply set_field_mf_allowed_iff in E. tauto.
Qed.

(** The zero-padding condition of a record, checked by evaluation. *)
Lemma padding_by_evaluation (oasf : list Z) (lo hi : Z) :
  forallb (fun b => b =? 0)
    (firstn (Z.to_nat (hi - lo)) (skipn (Z.to_nat lo) oasf)) = true ->
  hi <= Z.of_nat (List.length oasf) -> 0 <= lo ->
  forall i, lo <= i < hi -> nth_error oasf (Z.to_nat i) = Some 0.
Proof.
  intros Hall Hhi Hlo i Hi. rewrite forallb_forall in Hall.
  destruct (nth_error oasf (Z.to_nat i)) as [b|] eqn:E.
  - f_equal. apply Z.eqb_eq, Hall.
    apply (nth_error_In _ (Z.to_nat i - Z.to_nat lo)).
    rewrite nth_error_firstn, nth_error_skipn.
    destruct (Nat.ltb_spec (Z.to_nat i - Z.to_nat lo) (Z.to_nat (hi - lo)));
      [|lia].
    now replace (Z.to_nat lo + (Z.to_nat i - Z.to_nat lo))%nat
      with (Z.to_nat i) by lia.
  - apply nth_error_None in E. lia.
Qed.

(** Proves [decodes_to] of a closed record and descriptor by evaluation. *)
Ltac decodes_to_closed :=
  constructor;
  [ vm_compute; discriminate
  | reflexivity
  | apply padding_by_evaluation;
    [reflexivity | vm_compute; discriminate | vm_compute; discriminate]
  | reflexivity
  | reflexivity
  | discriminate
  | vm_compute; discriminate
  | split; vm_compute; discriminate ].

(** C2.  The allow-list accepts a field only if it is writable, has an OXM
    header and its identifier is in the AllowSet.  For a field [mf] whose
    identifier is outside of the AllowSet, writable or not: the allow-list
    refuses it; a record that passes the structural checks and resolves to
    [mf] makes the decoder return its error; and a text whose field name
    resolves to [mf] makes the parser leave with "is not allowed to set".
    Tunnel id, input port, the registers, VLAN TCI and TPID, the QinQ
    fields, IP TTL and fragmentation are outside of the AllowSet. *)
Theorem allow_list_exclusive {registry : MetaFlow} (mf : mf_field)
    (Hout : ~ In (id mf) AllowSet) :
  (forall f, set_field_mf_allowed f = true ->
             writable f = true /\ oxm_header f <> 0 /\ In (id f) AllowSet)
  /\ set_field_mf_allowed mf = false
  /\ (forall oasf ofpacts,
         decodes_to oasf mf ->
         set_field_from_openflow oasf ofpacts
         = Returns (OFPERR_OFPBAC_BAD_ARGUMENT,
                    ofpacts ++ [OFPACT_REG_LOAD (decoded_load mf oasf)]))
  /\ (forall value_text key ofpacts,
         strstr value_text "->" = None -> key <> EmptyString ->
         mf_parse_oxm_name key = Some mf ->
         set_field_parse (value_text ++ "->" ++ key) ofpacts
         = Exits (not_allowed_to_set key))
  /\ (forall i, ~ In (MFF_REG i) AllowSet)
  /\ Forall (fun excluded => ~ In excluded AllowSet)
       [ MFF_TUN_ID; MFF_IN_PORT; MFF_VLAN_TCI; MFF_VLAN_TPID;
         MFF_VLAN_QINQ_VID; MFF_VLAN_QINQ_PCP; MFF_IP_TTL; MFF_IP_FRAG ].
Proof.
  pose proof (outside_AllowSet mf Hout) as Hno.
  split; [intros f; apply set_field_mf_allowed_iff|].
  split; [exact Hno|].
  split.
  { intros oasf ofpacts Hd. rewrite (decode_past_lookup oasf mf ofpacts Hd).
    rewrite (set_field_check_returns _ mf) by reflexivity.
    now rewrite Hno. }
  split.
  { intros value_text key ofpacts Hv Hkey Hmf.
    now apply (parse_not_allowed value_text key mf). }
  split.
  { intros i Hin. cbn in Hin. intuition discriminate. }
  repeat (apply Forall_cons; [cbn; intuition discriminate|]).
  apply Forall_nil.
Qed.

Lemma allow_list_exclusive_witness :
  writable Sample.reg0 = true
  /\ set_field_mf_allowed Sample.reg0 = false
  /\ @set_field_from_openflow Sample.registry
       [0; 25; 0; 16; 0; 1; 0; 4; 0; 0; 0; 1; 0; 0; 0; 0] []
     = Returns (OFPERR_OFPBAC_BAD_ARGUMENT,
                [OFPACT_REG_LOAD
                   (@SetFieldAction Sample.registry Sample.reg0 [0; 0; 0; 1])])
  /\ @set_field_parse Sample.registry "0x1->reg0" []
     = Exits (not_allowed_to_set "reg0").
Proof.
  assert (Hout : ~ In (id Sample.reg0) AllowSet)
    by (cbn; intuition discriminate).
  destruct (@allow_list_exclusive Sample.registry Sample.reg0 Hout)
    as (_ & Hno & Hdecode & Hparse & _).
  split; [reflexivity|]. split; [exact Hno|]. split.
  - apply (Hdecode [0; 25; 0; 16; 0; 1; 0; 4; 0; 0; 0; 1; 0; 0; 0; 0] []).
    decodes_to_closed.
  - apply (Hparse "0x1"%string "reg0"%string []);
      [reflexivity | discriminate | reflexivity].
Defined.

(** ** Declared value length and descriptor width *)

(** C7 (as amended).  The decoder does not compare the value length the
    header declares with the byte width of the descriptor it resolves to.
    On every record that passes the length, padding, mask and lookup
    checks (and holds [8 + n_bytes] bytes) it appends the action whose value
    is the first [n_bytes] bytes after the fixed part, and returns the
    validator's verdict on it: success when the target is allowed and the
    value valid.  Agreement of the two lengths is not among the
    conditions. *)
Theorem decode_copies_descriptor_width {registry : MetaFlow} (oasf : list Z)
    (mf : mf_field) (ofpacts : list ofpact)
    (Hpass : decodes_to oasf mf) :
  set_field_from_openflow oasf ofpacts
  = Returns (if set_field_mf_allowed mf
                && mf_is_value_valid mf (value (decoded_load mf oasf))
             then OFPERR_0 else OFPERR_OFPBAC_BAD_ARGUMENT,
             ofpacts ++ [OFPACT_REG_LOAD (decoded_load mf oasf)])
  /\ value (decoded_load mf oasf)
     = firstn (Z.to_nat (n_bytes mf)) (skipn 8 oasf)
       ++ repeat 0 (sizeof_mf_value - Z.to_nat (n_bytes mf)).
Proof.
  split; [|reflexivity].
  rewrite (decode_past_lookup oasf mf ofpacts Hpass).
  now rewrite (set_field_check_returns _ mf) by reflexivity.
Qed.

Lemma decode_copies_descriptor_width_witness :
  @set_field_from_openflow Sample.registry
    [0; 25; 0; 16; 128; 0; 22; 4; 10; 0; 0; 1; 0; 0; 0; 0] []
  = Returns (OFPERR_0,
             [OFPACT_REG_LOAD
                (@SetFieldAction Sample.registry Sample.nw_src [10; 0; 0; 1])]).
Proof.
  apply (@decode_copies_descriptor_width Sample.registry
           [0; 25; 0; 16; 128; 0; 22; 4; 10; 0; 0; 1; 0; 0; 0; 0]
           Sample.nw_src []).
  decodes_to_closed.
Defined.

(** C7 (as stated, refuted).  Under a registry that resolves a header
    declaring four value bytes to a descriptor one byte wide, a record that
    passes the length, padding, mask and lookup checks is decoded with
    success, and the action holds the first of the four declared bytes
    only.  Under one that resolves a header declaring one byte to a
    descriptor four bytes wide, the decoder succeeds as well, and the
    action holds the declared byte and three bytes of the padding. *)
Lemma decode_accepts_length_mismatch :
  (wire_value_length [0; 25; 0; 16; 128; 0; 70; 4; 1; 11; 12; 13; 0; 0; 0; 0]
   = 4
   /\ n_bytes Sample.narrow = 1
   /\ @set_field_from_openflow Sample.mismatched
        [0; 25; 0; 16; 128; 0; 70; 4; 1; 11; 12; 13; 0; 0; 0; 0] []
      = Returns (OFPERR_0,
                 [OFPACT_REG_LOAD
                    (@SetFieldAction Sample.mismatched Sample.narrow [1])]))
  /\ (wire_value_length [0; 25; 0; 16; 128; 0; 56; 1; 10; 0; 0; 0; 0; 0; 0; 0]
      = 1
      /\ n_bytes Sample.wide = 4
      /\ @set_field_from_openflow Sample.mismatched
           [0; 25; 0; 16; 128; 0; 56; 1; 10; 0; 0; 0; 0; 0; 0; 0] []
         = Returns (OFPERR_0,
                    [OFPACT_REG_LOAD
                       (@SetFieldAction Sample.mismatched Sample.wide
                          [10; 0; 0; 0])])).
Proof. repeat split. Qed.

(** ** Wire round trip *)

Lemma ntohs_htons (x : Z) :
  0 <= x < 2 ^ 16 ->
  ntohs (x / 2 ^ 8 mod 2 ^ 8) (x mod 2 ^ 8) = x.
Proof.
  intros Hx. unfold ntohs.
  rewrite (Z.mod_small (x / 2 ^ 8)).
  - pose proof (Z.div_mod x (2 ^ 8) ltac:(lia)). lia.
  - split; [apply Z.div_pos; lia | apply Z.div_lt_upper_bound; lia].
Qed.

Lemma ntohl_htonl (x : Z) :
  0 <= x < 2 ^ 32 ->
  ntohl (x / 2 ^ 24 mod 2 ^ 8) (x / 2 ^ 16 mod 2 ^ 8) (x / 2 ^ 8 mod 2 ^ 8)
    (x mod 2 ^ 8) = x.
Proof.
  intros Hx. unfold ntohl.
  change (2 ^ 24) with (2 ^ 8 * 2 ^ 8 * 2 ^ 8).
  change (2 ^ 16) with (2 ^ 8 * 2 ^ 8).
  rewrite <- !Z.div_div by lia.
  rewrite (Z.mod_small (x / 2 ^ 8 / 2 ^ 8 / 2 ^ 8)).
  - pose proof (Z.div_mod x (2 ^ 8) ltac:(lia)).
    pose proof (Z.div_mod (x / 2 ^ 8) (2 ^ 8) ltac:(lia)).
    pose proof (Z.div_mod (x / 2 ^ 8 / 2 ^ 8) (2 ^ 8) ltac:(lia)).
    lia.
  - rewrite !Z.div_div by lia.
    split; [apply Z.div_pos; lia | apply Z.div_lt_upper_bound; lia].
Qed.

Lemma NXM_LENGTH_range (header : Z) : 0 <= NXM_LENGTH header < 2 ^ 8.
Proof.
  unfold NXM_LENGTH. change 255 with (Z.ones 8).
  rewrite Z.land_ones by lia. apply Z.mod_pos_bound. lia.
Qed.

(** The record the encoder writes for the action with target [f] and
    value bytes [v]. *)
Lemma encode_SetFieldAction {registry : MetaFlow} (f : mf_field) (v : list Z) :
  Z.of_nat (List.length v) = n_bytes f -> n_bytes f < 2 ^ 8 ->
  set_field_to_openflow (SetFieldAction f v) []
  = Returns (htons OFPAT12_SET_FIELD
             ++ htons (ROUND_UP (sizeof_oasf + n_bytes f) 8)
             ++ htonl (oxm_header f)
             ++ v
             ++ repeat 0 (Z.to_nat (ROUND_UP (sizeof_oasf + n_bytes f) 8
                                    - (sizeof_oasf + n_bytes f)))).
Proof.
  intros Hv Hn. unfold set_field_to_openflow. cbn [SetFieldAction compat
    is_set_field assert bind dst field value].
  pose proof (ROUND_UP_8_ge (sizeof_oasf + n_bytes f)) as Hr.
  unfold sizeof_oasf in *.
  assert (Hlen : uint16_t (8 + n_bytes f) = 8 + n_bytes f)
    by (apply Z.mod_small; lia).
  rewrite Hlen.
  assert (Hup : uint16_t (ROUND_UP (8 + n_bytes f) 8)
                = ROUND_UP (8 + n_bytes f) 8)
    by (apply Z.mod_small; lia).
  rewrite Hup.
  assert (Hpad : size_t (ROUND_UP (8 + n_bytes f) 8 - (8 + n_bytes f))
                 = ROUND_UP (8 + n_bytes f) 8 - (8 + n_bytes f))
    by (apply Z.mod_small; lia).
  rewrite Hpad.
  unfold read_bytes. rewrite length_app.
  destruct (Z.leb_spec (n_bytes f)
              (Z.of_nat (List.length v
                         + List.length (repeat 0 (sizeof_mf_value
                                                  - List.length v)))));
    [|lia].
  cbn [bind app]. rewrite <- Hv, Nat2Z.id, firstn_app, Nat.sub_diag, firstn_all.
  cbn [firstn]. rewrite app_nil_r, <- !app_assoc. reflexivity.
Qed.

(** What the decoder reads in a record laid out as the encoder writes it. *)
Lemma encoded_record_decodes {registry : MetaFlow} (f : mf_field) (v : list Z) :
  on_the_wire f -> oxm_header f <> 0 ->
  Z.of_nat (List.length v) = n_bytes f ->
  decodes_to
    (htons OFPAT12_SET_FIELD
     ++ htons (ROUND_UP (sizeof_oasf + n_bytes f) 8)
     ++ htonl (oxm_header f)
     ++ v
     ++ repeat 0 (Z.to_nat (ROUND_UP (sizeof_oasf + n_bytes f) 8
                            - (sizeof_oasf + n_bytes f))))
    f.
Proof.
  intros [Hu32 Hlookup Hlength Hmask Hunion] Hoxm Hv.
  pose proof (NXM_LENGTH_range (oxm_header f)) as Hn. rewrite Hlength in Hn.
  pose proof (ROUND_UP_8_ge (sizeof_oasf + n_bytes f)) as Hr.
  set (R := ROUND_UP (sizeof_oasf + n_bytes f) 8) in *.
  set (pad := Z.to_nat (R - (sizeof_oasf + n_bytes f))).
  unfold sizeof_oasf in *.
  assert (Hwl : wire_len (htons OFPAT12_SET_FIELD ++ htons R
                          ++ htonl (oxm_header f) ++ v ++ repeat 0 pad) = R)
    by (apply ntohs_htons; lia).
  assert (Hwh : wire_header (htons OFPAT12_SET_FIELD ++ htons R
                             ++ htonl (oxm_header f) ++ v ++ repeat 0 pad)
                = oxm_header f)
    by (apply ntohl_htonl; lia).
  assert (Hvl : wire_value_length (htons OFPAT12_SET_FIELD ++ htons R
                                   ++ htonl (oxm_header f) ++ v
                                   ++ repeat 0 pad) = n_bytes f).
  { unfold wire_value_length. rewrite Hwh, Hlength. apply Z.mod_small. lia. }
  assert (Hsize : Z.of_nat (List.length (htons OFPAT12_SET_FIELD ++ htons R
                                         ++ htonl (oxm_header f) ++ v
                                         ++ repeat 0 pad)) = R).
  { rewrite !length_app, repeat_length. cbn [htons htonl List.length].
    subst pad. lia. }
  constructor; rewrite ?Hwl, ?Hwh, ?Hvl, ?Hsize; unfold sizeof_oasf;
    try assumption; try lia.
  intros i Hi.
  change (htons OFPAT12_SET_FIELD ++ htons R ++ htonl (oxm_header f)
          ++ v ++ repeat 0 pad)
    with ((htons OFPAT12_SET_FIELD ++ htons R ++ htonl (oxm_header f))
          ++ v ++ repeat 0 pad).
  rewrite nth_error_app2 by (cbn [htons htonl List.length app]; lia).
  rewrite nth_error_app2 by (cbn [htons htonl List.length app]; lia).
  apply nth_error_repeat. cbn [htons htonl List.length app]. subst pad. lia.
Qed.

Lemma decoded_load_of_encoded {registry : MetaFlow} (f : mf_field) (v : list Z)
    (t0 t1 l0 l1 h0 h1 h2 h3 : Z) (zeros : list Z) :
  Z.of_nat (List.length v) = n_bytes f ->
  decoded_load f ([t0; t1] ++ [l0; l1] ++ [h0; h1; h2; h3] ++ v ++ zeros)
  = SetFieldAction f v.
Proof.
  intros Hv. unfold decoded_load, SetFieldAction. cbn [app skipn].
  rewrite <- Hv, Nat2Z.id, firstn_app, Nat.sub_diag, firstn_all.
  cbn [firstn]. now rewrite app_nil_r.
Qed.

(** C1.  For a field [f] the allow-list accepts and value bytes [v] (as
    many as [f] is wide) the registry finds valid, with the header of [f]
    registered for [f]: the encoder writes a record, and the decoder, given
    that record, succeeds and appends the action it was encoded from: same
    target, bit offset 0, the full bit width of [f], the same value
    bytes. *)
Theorem wire_round_trip {registry : MetaFlow} (f : mf_field) (v : list Z)
    (ofpacts : list ofpact)
    (Hallowed : set_field_mf_allowed f = true)
    (Hvalid : mf_is_value_valid f (value (SetFieldAction f v)) = true)
    (Hwire : on_the_wire f)
    (Hwidth : Z.of_nat (List.length v) = n_bytes f) :
  exists record,
    set_field_to_openflow (SetFieldAction f v) [] = Returns record
    /\ set_field_from_openflow record ofpacts
       = Returns (OFPERR_0, ofpacts ++ [OFPACT_REG_LOAD (SetFieldAction f v)])
    /\ dst (SetFieldAction f v)
       = {| field := Some f; ofs := 0; sf_n_bits := n_bits f |}.
Proof.
  pose proof (NXM_LENGTH_range (oxm_header f)) as Hn.
  rewrite (otw_length f Hwire) in Hn.
  assert (Hoxm : oxm_header f <> 0)
    by (apply set_field_mf_allowed_iff in Hallowed; tauto).
  eexists. split; [apply encode_SetFieldAction; [assumption | lia]|].
  split; [|reflexivity].
  rewrite (decode_past_lookup _ f ofpacts
             (encoded_record_decodes f v Hwire Hoxm Hwidth)).
  unfold htons, htonl. rewrite decoded_load_of_encoded by assumption.
  rewrite (set_field_check_returns _ f) by reflexivity.
  now rewrite Hallowed, Hvalid.
Qed.

Lemma wire_round_trip_witness :
  exists record,
    set_field_to_openflow
      (@SetFieldAction Sample.registry Sample.nw_src [10; 0; 0; 1]) []
    = Returns record
    /\ @set_field_from_openflow Sample.registry record [OFPACT_OTHER [7]]
       = Returns (OFPERR_0,
                  [OFPACT_OTHER [7];
                   OFPACT_REG_LOAD
                     (@SetFieldAction Sample.registry Sample.nw_src
                        [10; 0; 0; 1])])
    /\ dst (@SetFieldAction Sample.registry Sample.nw_src [10; 0; 0; 1])
       = {| field := Some Sample.nw_src; ofs := 0; sf_n_bits := 32 |}.
Proof.
  apply (@wire_round_trip Sample.registry Sample.nw_src [10; 0; 0; 1]
           [OFPACT_OTHER [7]]).
  - reflexivity.
  - reflexivity.
  - constructor;
      [ split; vm_compute; [discriminate | reflexivity]
      | reflexivity | reflexivity | reflexivity | vm_compute; discriminate ].
  - reflexivity.
Defined.

(* ================================================================== *)
(** * Further properties of the code *)

(** ** What a decoder result tells about the record *)

(** Every way the decoder returns: with its error and the buffer as it
    was, or past all four structural checks with one instruction appended
    and the validator's verdict. *)
Lemma decode_returns_inv {registry : MetaFlow} (oasf : list Z)
    (ofpacts : list ofpact) (e : ofperr) (buf : list ofpact) :
  8 <= Z.of_nat (List.length oasf) ->
  set_field_from_openflow oasf ofpacts = Returns (e, buf) ->
  (e = OFPERR_OFPBAC_BAD_ARGUMENT /\ buf = ofpacts)
  \/ exists mf,
       wire_len oasf = ROUND_UP (sizeof_oasf + wire_value_length oasf) 8
       /\ (forall i,
              sizeof_oasf + wire_value_length oasf <= i < wire_len oasf ->
              nth_error oasf (Z.to_nat i) = Some 0)
       /\ NXM_HASMASK (wire_header oasf) = false
       /\ mf_from_nxm_header (wire_header oasf) = Some mf
       /\ oxm_header mf <> 0
       /\ sizeof_oasf + n_bytes mf <= Z.of_nat (List.length oasf)
       /\ n_bytes mf <= Z.of_nat sizeof_mf_value
       /\ e = (if set_field_mf_allowed mf
                  && mf_is_value_valid mf (value (decoded_load mf oasf))
               then OFPERR_0 else OFPERR_OFPBAC_BAD_ARGUMENT)
       /\ buf = ofpacts ++ [OFPACT_REG_LOAD (decoded_load mf oasf)].
Proof.
  intros Hstruct Hret.
  destruct (Z.eq_dec (wire_len oasf)
              (ROUND_UP (sizeof_oasf + wire_value_length oasf) 8)) as [Hlen|Hlen].
  2:{ rewrite (decode_bad_length oasf ofpacts Hstruct Hlen) in Hret.
      left. split; congruence. }
  rewrite (decode_good_length oasf ofpacts Hstruct Hlen) in Hret.
  destruct (padding_is_zero oasf _ _) as [[|]| | |] eqn:Hpad;
    cbn [bind negb] in Hret; try discriminate; [|left; split; congruence].
  destruct (NXM_HASMASK (wire_header oasf)) eqn:Hmask;
    [left; split; congruence|].
  destruct (mf_from_nxm_header (wire_header oasf)) as [mf|] eqn:Hmf;
    [|left; split; congruence].
  destruct (Z.eqb_spec (oxm_header mf) 0) as [Hz|Hnz];
    [left; split; congruence|].
  right. exists mf.
  pose proof (wire_value_length_range oasf) as Hr.
  unfold memcpy, read_bytes in Hret. rewrite length_skipn, repeat_length in Hret.
  destruct (Z.leb_spec (n_bytes mf)
              (Z.of_nat (List.length oasf - Z.to_nat sizeof_oasf)))
    as [Hsrc|]; cbn [bind] in Hret; [|discriminate].
  destruct (Z.leb_spec (n_bytes mf) (Z.of_nat sizeof_mf_value)) as [Hdst|];
    cbn [bind] in Hret; [|discriminate].
  rewrite skipn_repeat in Hret.
  change (nxm_reg_load_check ?l None) with (set_field_check l None) in Hret.
  rewrite (set_field_check_returns _ mf) in Hret by reflexivity.
  cbn [bind] in Hret. injection Hret as <- <-.
  unfold sizeof_oasf in *.
  repeat split; try assumption; try lia.
  intros i Hi.
  refine (padding_true_inv oasf _ (8 + wire_value_length oasf) _ Hpad i _); lia.
Qed.

(** X1.  Whatever the decoder accepts has been validated: when it returns
    success, its header resolved to a descriptor the allow-list accepts,
    the registry finds the copied value valid, the buffer gained exactly
    that one set-field instruction (bit offset 0, full width), and the
    validator run on this instruction again returns success. *)
Theorem decode_success_is_validated {registry : MetaFlow} (oasf : list Z)
    (ofpacts buf : list ofpact)
    (Hstruct : 8 <= Z.of_nat (List.length oasf))
    (Hok : set_field_from_openflow oasf ofpacts = Returns (OFPERR_0, buf)) :
  exists mf,
    mf_from_nxm_header (wire_header oasf) = Some mf
    /\ set_field_mf_allowed mf = true
    /\ mf_is_value_valid mf (value (decoded_load mf oasf)) = true
    /\ buf = ofpacts ++ [OFPACT_REG_LOAD (decoded_load mf oasf)]
    /\ dst (decoded_load mf oasf)
       = {| field := Some mf; ofs := 0; sf_n_bits := n_bits mf |}
    /\ set_field_check (decoded_load mf oasf) None = Returns OFPERR_0.
Proof.
  destruct (decode_returns_inv oasf ofpacts _ _ Hstruct Hok)
    as [[He _]|(mf & _ & _ & _ & Hmf & _ & _ & _ & He & Hbuf)];
    [discriminate|].
  exists mf.
  destruct (set_field_mf_allowed mf) eqn:Ha; [|discriminate].
  destruct (mf_is_value_valid mf (value (decoded_load mf oasf))) eqn:Hv;
    [|discriminate].
  repeat split; try assumption.
  rewrite (set_field_check_returns _ mf) by reflexivity.
  now rewrite Ha, Hv.
Qed.

Lemma decode_success_is_validated_witness :
  exists mf,
    @mf_from_nxm_header Sample.registry
      (wire_header [0; 25; 0; 16; 128; 0; 14; 1; 5; 0; 0; 0; 0; 0; 0; 0])
    = Some mf
    /\ set_field_mf_allowed mf = true
    /\ @mf_is_value_valid Sample.registry mf
         (value (@decoded_load Sample.registry mf
                   [0; 25; 0; 16; 128; 0; 14; 1; 5; 0; 0; 0; 0; 0; 0; 0]))
       = true
    /\ [OFPACT_REG_LOAD (@SetFieldAction Sample.registry Sample.vlan_pcp [5])]
       = [] ++ [OFPACT_REG_LOAD
                  (@decoded_load Sample.registry mf
                     [0; 25; 0; 16; 128; 0; 14; 1; 5; 0; 0; 0; 0; 0; 0; 0])]
    /\ dst (@decoded_load Sample.registry mf
              [0; 25; 0; 16; 128; 0; 14; 1; 5; 0; 0; 0; 0; 0; 0; 0])
       = {| field := Some mf; ofs := 0; sf_n_bits := n_bits mf |}
    /\ @set_field_check Sample.registry
         (@decoded_load Sample.registry mf
            [0; 25; 0; 16; 128; 0; 14; 1; 5; 0; 0; 0; 0; 0; 0; 0]) None
       = Returns OFPERR_0.
Proof.
  apply (@decode_success_is_validated Sample.registry
           [0; 25; 0; 16; 128; 0; 14; 1; 5; 0; 0; 0; 0; 0; 0; 0] []).
  - vm_compute; discriminate.
  - reflexivity.
Defined.

Lemma ROUND_UP_8_aligned (x : Z) : ROUND_UP x 8 mod 8 = 0.
Proof. unfold ROUND_UP. apply Z.mod_mul. lia. Qed.

(** X2.  The declared total length of an acceptable record is a multiple
    of 8 between 8 and 264 (the fixed part plus at most 255 value bytes,
    rounded up): a record that declares any other length is refused with
    the buffer untouched, whatever it holds and whatever the registry. *)
Theorem decode_refuses_impossible_length {registry : MetaFlow} (oasf : list Z)
    (ofpacts : list ofpact)
    (Hstruct : 8 <= Z.of_nat (List.length oasf))
    (Hlen : wire_len oasf < 8 \/ 264 < wire_len oasf
            \/ wire_len oasf mod 8 <> 0) :
  set_field_from_openflow oasf ofpacts
  = Returns (OFPERR_OFPBAC_BAD_ARGUMENT, ofpacts).
Proof.
  apply decode_bad_length; [assumption|].
  pose proof (wire_value_length_range oasf) as Hr.
  pose proof (ROUND_UP_8_ge (sizeof_oasf + wire_value_length oasf)) as Hup.
  pose proof (ROUND_UP_8_aligned (sizeof_oasf + wire_value_length oasf)) as Hal.
  unfold sizeof_oasf in *. intros Heq. rewrite <- Heq in Hup, Hal.
  destruct Hlen as [H|[H|H]]; [lia| |contradiction].
  assert (wire_len oasf = 8 * (wire_len oasf / 8))
    by (pose proof (Z.div_mod (wire_len oasf) 8 ltac:(lia)); lia).
  lia.
Qed.

Lemma decode_refuses_impossible_length_witness :
  Forall (fun oasf =>
            @set_field_from_openflow Sample.registry oasf []
            = Returns (OFPERR_OFPBAC_BAD_ARGUMENT, []))
    [ [0; 25; 0; 0; 128; 0; 22; 4];
      [0; 25; 1; 16; 128; 0; 22; 255];
      [0; 25; 0; 12; 128; 0; 22; 4] ].
Proof.
  apply Forall_cons;
    [apply (@decode_refuses_impossible_length Sample.registry);
     [vm_compute; discriminate | left; vm_compute; reflexivity]|].
  apply Forall_cons;
    [apply (@decode_refuses_impossible_length Sample.registry);
     [vm_compute; discriminate | right; left; vm_compute; reflexivity]|].
  apply Forall_cons;
    [apply (@decode_refuses_impossible_length Sample.registry);
     [vm_compute; discriminate | right; right; vm_compute; discriminate]|].
  apply Forall_nil.
Defined.

(** X3.  An error return of the decoder does not mean the buffer is as it
    was.  On a record that passes the structural checks and resolves to
    [mf], when the validator rejects (a target the allow-list refuses, or
    a value the registry finds invalid) the decoder returns its error and
    leaves the rejected instruction at the end of the buffer, which is one
    instruction longer. *)
Theorem decode_rejected_instruction_stays {registry : MetaFlow}
    (oasf : list Z) (mf : mf_field) (ofpacts : list ofpact)
    (Hpass : decodes_to oasf mf)
    (Hrejected : set_field_mf_allowed mf
                 && mf_is_value_valid mf (value (decoded_load mf oasf))
                 = false) :
  exists buf,
    set_field_from_openflow oasf ofpacts
    = Returns (OFPERR_OFPBAC_BAD_ARGUMENT, buf)
    /\ buf = ofpacts ++ [OFPACT_REG_LOAD (decoded_load mf oasf)]
    /\ List.length buf = S (List.length ofpacts)
    /\ buf <> ofpacts.
Proof.
  eexists. split; [|split; [reflexivity|]].
  - rewrite (decode_past_lookup oasf mf ofpacts Hpass).
    rewrite (set_field_check_returns _ mf) by reflexivity.
    now rewrite Hrejected.
  - assert (Hl : List.length (ofpacts ++ [OFPACT_REG_LOAD (decoded_load mf oasf)])
                 = S (List.length ofpacts))
      by (rewrite length_app; cbn; lia).
    split; [exact Hl|]. intros Heq. rewrite Heq in Hl. lia.
Qed.

Lemma decode_rejected_instruction_stays_witness :
  exists buf,
    @set_field_from_openflow Sample.registry
      [0; 25; 0; 16; 128; 0; 14; 1; 8; 0; 0; 0; 0; 0; 0; 0] []
    = Returns (OFPERR_OFPBAC_BAD_ARGUMENT, buf)
    /\ buf = [] ++ [OFPACT_REG_LOAD
                      (@decoded_load Sample.registry Sample.vlan_pcp
                         [0; 25; 0; 16; 128; 0; 14; 1; 8; 0; 0; 0; 0; 0; 0; 0])]
    /\ List.length buf = 1%nat
    /\ buf <> [].
Proof.
  apply (@decode_rejected_instruction_stays Sample.registry
           [0; 25; 0; 16; 128; 0; 14; 1; 8; 0; 0; 0; 0; 0; 0; 0]
           Sample.vlan_pcp []).
  - decodes_to_closed.
  - reflexivity.
Defined.

(** X4.  A field the registry marks read-only, or one without an OXM
    header, is never set, even when its identifier is in the AllowSet: the
    allow-list refuses it, the validator returns its error on any
    set-field instruction that targets it, the parser leaves with "is not
    allowed to set" on any text whose field name resolves to it, and the
    decoder never returns success on a record whose header resolves to
    it. *)
Theorem read_only_field_is_never_set {registry : MetaFlow} (mf : mf_field)
    (Hro : writable mf = false \/ oxm_header mf = 0) :
  set_field_mf_allowed mf = false
  /\ (forall load fl,
         compat load = OFPUTIL_OFPAT12_SET_FIELD ->
         field (dst load) = Some mf ->
         set_field_check load fl = Returns OFPERR_OFPBAC_BAD_ARGUMENT)
  /\ (forall value_text key ofpacts,
         strstr value_text "->" = None -> key <> EmptyString ->
         mf_parse_oxm_name key = Some mf ->
         set_field_parse (value_text ++ "->" ++ key) ofpacts
         = Exits (not_allowed_to_set key))
  /\ (forall oasf ofpacts buf,
         8 <= Z.of_nat (List.length oasf) ->
         mf_from_nxm_header (wire_header oasf) = Some mf ->
         set_field_from_openflow oasf ofpacts <> Returns (OFPERR_0, buf)).
Proof.
  assert (Hno : set_field_mf_allowed mf = false).
  { destruct (set_field_mf_allowed mf) eqn:E; [|reflexivity].
    apply set_field_mf_allowed_iff in E. destruct E as (Hw & Hh & _).
    destruct Hro; congruence. }
  split; [exact Hno|]. split; [|split].
  - intros load fl Hc Hf. rewrite (set_field_check_returns load mf) by assumption.
    now rewrite Hno.
  - intros value_text key ofpacts Hv Hkey Hmf.
    now apply (parse_not_allowed value_text key mf).
  - intros oasf ofpacts buf Hstruct Hmf Hok.
    destruct (decode_returns_inv oasf ofpacts _ _ Hstruct Hok)
      as [[He _]|(mf' & _ & _ & _ & Hmf' & _ & _ & _ & He & _)];
      [discriminate|].
    assert (mf' = mf) by congruence. subst mf'.
    rewrite Hno in He. discriminate.
Qed.

Lemma read_only_field_is_never_set_witness :
  set_field_mf_allowed
    {| id := MFF_ETH_SRC; name := "eth_src"; n_bytes := 6; n_bits := 48;
       writable := false; oxm_header := 0x80000806 |} = false.
Proof.
  apply (@read_only_field_is_never_set Sample.registry
           {| id := MFF_ETH_SRC; name := "eth_src"; n_bytes := 6;
              n_bits := 48; writable := false; oxm_header := 0x80000806 |}).
  left. reflexivity.
Defined.

(** ** What the decoder reads *)

Lemma read_cons (a : Z) (mem : list Z) (i : Z) :
  1 <= i -> read (a :: mem) i = read mem (i - 1).
Proof.
  intros Hi. unfold read.
  replace (Z.to_nat i) with (S (Z.to_nat (i - 1))) by lia. reflexivity.
Qed.

Lemma padding_is_zero_cons (a : Z) (mem : list Z) (n : nat) : forall i : Z,
  1 <= i ->
  padding_is_zero (a :: mem) i n = padding_is_zero mem (i - 1) n.
Proof.
  induction n as [|n IH]; intros i Hi; [reflexivity|].
  cbn [padding_is_zero]. rewrite read_cons by assumption.
  destruct (read mem (i - 1)) as [b| | |]; cbn [bind]; try reflexivity.
  destruct (b =? 0); [|reflexivity].
  rewrite IH by lia. now replace (i + 1 - 1) with (i - 1 + 1) by lia.
Qed.

(** X5.  The decoder never looks at the action type: two records that
    differ in their first two bytes only are decoded alike, results and
    buffers included.  Telling a set-field record from another action is
    left to the caller. *)
Theorem decode_ignores_type {registry : MetaFlow} (t0 t1 u0 u1 : Z)
    (rest : list Z) (ofpacts : list ofpact) :
  set_field_from_openflow (t0 :: t1 :: rest) ofpacts
  = set_field_from_openflow (u0 :: u1 :: rest) ofpacts.
Proof.
  unfold set_field_from_openflow, read_be16, read_be32,
    offsetof_len, offsetof_field.
  rewrite !(read_cons t0), !(read_cons t1), !(read_cons u0), !(read_cons u1)
    by lia.
  repeat match goal with
         | |- context [bind (read ?l ?i) _] =>
             destruct (read l i); cbn [bind]; try reflexivity
         end.
  match goal with
  | |- context [uint8_t ?x] =>
      pose proof (Z.mod_pos_bound x (2 ^ 8) ltac:(lia)) as Hr;
      fold (uint8_t x) in Hr
  end.
  destruct (negb _); [reflexivity|].
  unfold sizeof_oasf in *.
  rewrite !(padding_is_zero_cons t0), !(padding_is_zero_cons t1),
    !(padding_is_zero_cons u0), !(padding_is_zero_cons u1) by lia.
  reflexivity.
Qed.

Lemma read_app (mem extra : list Z) (i b : Z) :
  read mem i = Returns b -> read (mem ++ extra) i = Returns b.
Proof.
  unfold read. intros H.
  destruct (nth_error mem (Z.to_nat i)) as [b'|] eqn:E; [|discriminate].
  rewrite nth_error_app1 by (apply nth_error_Some; congruence).
  now rewrite E.
Qed.

Lemma read_be16_app (mem extra : list Z) (off x : Z) :
  read_be16 mem off = Returns x -> read_be16 (mem ++ extra) off = Returns x.
Proof.
  unfold read_be16. intros H.
  destruct (read mem off) as [b0| | |] eqn:E0; try discriminate.
  destruct (read mem (off + 1)) as [b1| | |] eqn:E1; try discriminate.
  now rewrite (read_app _ extra _ _ E0), (read_app _ extra _ _ E1).
Qed.

Lemma read_be32_app (mem extra : list Z) (off x : Z) :
  read_be32 mem off = Returns x -> read_be32 (mem ++ extra) off = Returns x.
Proof.
  unfold read_be32. intros H.
  destruct (read mem off) as [b0| | |] eqn:E0; try discriminate.
  destruct (read mem (off + 1)) as [b1| | |] eqn:E1; try discriminate.
  destruct (read mem (off + 2)) as [b2| | |] eqn:E2; try discriminate.
  destruct (read mem (off + 3)) as [b3| | |] eqn:E3; try discriminate.
  now rewrite (read_app _ extra _ _ E0), (read_app _ extra _ _ E1),
    (read_app _ extra _ _ E2), (read_app _ extra _ _ E3).
Qed.

Lemma padding_is_zero_app (mem extra : list Z) (n : nat) :
  forall (i : Z) (z : bool),
  padding_is_zero mem i n = Returns z ->
  padding_is_zero (mem ++ extra) i n = Returns z.
Proof.
  induction n as [|n IH]; intros i z H; [exact H|].
  cbn [padding_is_zero] in *.
  destruct (read mem i) as [b| | |] eqn:E; try discriminate.
  rewrite (read_app _ extra _ _ E). cbn [bind] in *.
  destruct (b =? 0); [now apply IH | exact H].
Qed.

Lemma memcpy_skipn_app (dst mem extra v : list Z) (k : nat) (n : Z) :
  memcpy dst (skipn k mem) n = Returns v ->
  memcpy dst (skipn k (mem ++ extra)) n = Returns v.
Proof.
  unfold memcpy, read_bytes. rewrite skipn_app, length_app.
  destruct (Z.leb_spec n (Z.of_nat (List.length (skipn k mem)))) as [Hle|];
    [|discriminate].
  destruct (Z.leb_spec n
              (Z.of_nat (List.length (skipn k mem)
                         + List.length (skipn (k - List.length mem) extra))));
    [|lia].
  cbn [bind]. rewrite firstn_app.
  replace (Z.to_nat n - List.length (skipn k mem))%nat with 0%nat by lia.
  cbn [firstn]. now rewrite app_nil_r.
Qed.

Lemma decode_app {registry : MetaFlow} (oasf extra : list Z)
    (ofpacts : list ofpact) (r : ofperr * list ofpact) :
  set_field_from_openflow oasf ofpacts = Returns r ->
  set_field_from_openflow (oasf ++ extra) ofpacts = Returns r.
Proof.
  intros Hret. unfold set_field_from_openflow in *.
  destruct (read_be16 oasf offsetof_len) as [len| | |] eqn:Elen;
    try discriminate.
  rewrite (read_be16_app _ extra _ _ Elen).
  destruct (read_be32 oasf offsetof_field) as [header| | |] eqn:Ehdr;
    try discriminate.
  rewrite (read_be32_app _ extra _ _ Ehdr). cbn [bind] in *.
  destruct (negb _); [exact Hret|].
  destruct (padding_is_zero oasf _ _) as [zero| | |] eqn:Epad;
    try discriminate.
  rewrite (padding_is_zero_app _ extra _ _ _ Epad). cbn [bind] in *.
  destruct (negb zero); [exact Hret|].
  destruct (NXM_HASMASK header); [exact Hret|].
  destruct (mf_from_nxm_header header) as [mf|]; [|exact Hret].
  destruct (oxm_header mf =? 0); [exact Hret|].
  destruct (memcpy _ (skipn _ oasf) _) as [v| | |] eqn:Ecpy; try discriminate.
  now rewrite (memcpy_skipn_app _ _ extra _ _ _ Ecpy).
Qed.

(** X6.  The decoder's result depends on the bytes it reads only: when it
    returns on the memory [oasf], it returns the same on every memory that
    begins with the bytes of [oasf], whatever follows them, such as the
    next action of a list. *)
Theorem decode_ignores_what_follows {registry : MetaFlow} (oasf : list Z)
    (ofpacts : list ofpact) (r : ofperr * list ofpact)
    (Hret : set_field_from_openflow oasf ofpacts = Returns r)
    (mem : list Z)
    (Hbegin : firstn (List.length oasf) mem = oasf) :
  set_field_from_openflow mem ofpacts = Returns r.
Proof.
  assert (Hmem : mem = oasf ++ skipn (List.length oasf) mem).
  { rewrite <- Hbegin at 1. symmetry. apply firstn_skipn. }
  rewrite Hmem. now apply decode_app.
Qed.

Lemma decode_ignores_what_follows_witness :
  @set_field_from_openflow Sample.registry
    [0; 25; 0; 16; 128; 0; 14; 1; 5; 0; 0; 0; 0; 0; 0; 0;
     0; 25; 0; 16; 128; 0; 22; 4; 10; 0; 0; 1; 0; 0; 0; 0] []
  = Returns (OFPERR_0,
             [OFPACT_REG_LOAD
                (@SetFieldAction Sample.registry Sample.vlan_pcp [5])]).
Proof.
  apply (@decode_ignores_what_follows Sample.registry
           [0; 25; 0; 16; 128; 0; 14; 1; 5; 0; 0; 0; 0; 0; 0; 0] []).
  - reflexivity.
  - reflexivity.
Defined.

(** ** The encoder and the decoder together *)

(** Decoding what the encoder wrote for [f] and [v]: the action comes
    back, with the validator's verdict on it. *)
Lemma decode_encoded {registry : MetaFlow} (f : mf_field) (v : list Z)
    (ofpacts : list ofpact) :
  on_the_wire f -> oxm_header f <> 0 ->
  Z.of_nat (List.length v) = n_bytes f ->
  exists record,
    set_field_to_openflow (SetFieldAction f v) [] = Returns record
    /\ Z.of_nat (List.length record) = wire_len record
    /\ 8 <= wire_len record
    /\ set_field_from_openflow record ofpacts
       = Returns (if set_field_mf_allowed f
                     && mf_is_value_valid f (value (SetFieldAction f v))
                  then OFPERR_0 else OFPERR_OFPBAC_BAD_ARGUMENT,
                  ofpacts ++ [OFPACT_REG_LOAD (SetFieldAction f v)]).
Proof.
  intros Hwire Hoxm Hwidth.
  pose proof (NXM_LENGTH_range (oxm_header f)) as Hn.
  rewrite (otw_length f Hwire) in Hn.
  pose proof (encoded_record_decodes f v Hwire Hoxm Hwidth) as Hd.
  eexists. split; [apply encode_SetFieldAction; [assumption | lia]|].
  split; [|split].
  - destruct Hd as [_ Hlen _ _ _ _ _ _].
    assert (Hwl : wire_value_length
                    (htons OFPAT12_SET_FIELD
                     ++ htons (ROUND_UP (sizeof_oasf + n_bytes f) 8)
                     ++ htonl (oxm_header f) ++ v
                     ++ repeat 0 (Z.to_nat (ROUND_UP (sizeof_oasf + n_bytes f) 8
                                            - (sizeof_oasf + n_bytes f))))
                  = n_bytes f).
    { unfold wire_value_length.
      replace (wire_header _) with (oxm_header f)
        by (symmetry; apply ntohl_htonl; apply Hwire).
      rewrite (otw_length f Hwire). apply Z.mod_small. lia. }
    rewrite Hlen, Hwl.
    pose proof (ROUND_UP_8_ge (sizeof_oasf + n_bytes f)).
    rewrite !length_app, repeat_length. cbn [htons htonl List.length].
    unfold sizeof_oasf in *. lia.
  - destruct Hd as [_ Hlen _ _ _ _ _ _]. rewrite Hlen.
    pose proof (wire_value_length_range
                  (htons OFPAT12_SET_FIELD
                   ++ htons (ROUND_UP (sizeof_oasf + n_bytes f) 8)
                   ++ htonl (oxm_header f) ++ v
                   ++ repeat 0 (Z.to_nat (ROUND_UP (sizeof_oasf + n_bytes f) 8
                                          - (sizeof_oasf + n_bytes f))))) as Hr.
    match goal with
    | |- 8 <= ROUND_UP ?x 8 => pose proof (ROUND_UP_8_ge x)
    end.
    unfold sizeof_oasf in *. lia.
  - rewrite (decode_past_lookup _ f ofpacts Hd).
    unfold htons, htonl. rewrite decoded_load_of_encoded by assumption.
    now rewrite (set_field_check_returns _ f) by reflexivity.
Qed.

(** X7.  The encoder is no gate, the decoder is.  For any target [f]
    registered on the wire and any [n_bytes f] value bytes, allowed and
    valid or not, the encoder writes a record; decoding that record
    appends the very action that was encoded and returns what the
    validator says of it: success exactly when the target is allowed and
    the value valid. *)
Theorem decode_after_encode_is_the_validator {registry : MetaFlow}
    (f : mf_field) (v : list Z) (ofpacts : list ofpact)
    (Hwire : on_the_wire f)
    (Hoxm : oxm_header f <> 0)
    (Hwidth : Z.of_nat (List.length v) = n_bytes f) :
  exists record e,
    set_field_to_openflow (SetFieldAction f v) [] = Returns record
    /\ set_field_check (SetFieldAction f v) None = Returns e
    /\ set_field_from_openflow record ofpacts
       = Returns (e, ofpacts ++ [OFPACT_REG_LOAD (SetFieldAction f v)])
    /\ (e = OFPERR_0 <->
        set_field_mf_allowed f = true
        /\ mf_is_value_valid f (value (SetFieldAction f v)) = true).
Proof.
  destruct (decode_encoded f v ofpacts Hwire Hoxm Hwidth)
    as (record & Henc & _ & _ & Hdec).
  exists record. eexists. split; [exact Henc|].
  split; [apply (set_field_check_returns _ f); reflexivity|].
  split; [exact Hdec|].
  destruct (set_field_mf_allowed f), (mf_is_value_valid f _); cbn;
    intuition discriminate.
Qed.

Lemma decode_after_encode_is_the_validator_witness :
  exists record e,
    set_field_to_openflow (@SetFieldAction Sample.registry Sample.reg0
                             [0; 0; 0; 1]) [] = Returns record
    /\ @set_field_check Sample.registry
         (@SetFieldAction Sample.registry Sample.reg0 [0; 0; 0; 1]) None
       = Returns e
    /\ @set_field_from_openflow Sample.registry record []
       = Returns (e, [] ++ [OFPACT_REG_LOAD
                              (@SetFieldAction Sample.registry Sample.reg0
                                 [0; 0; 0; 1])])
    /\ (e = OFPERR_0 <->
        set_field_mf_allowed Sample.reg0 = true
        /\ @mf_is_value_valid Sample.registry Sample.reg0
             (value (@SetFieldAction Sample.registry Sample.reg0
                       [0; 0; 0; 1])) = true).
Proof.
  apply (@decode_after_encode_is_the_validator Sample.registry Sample.reg0
           [0; 0; 0; 1] []).
  - constructor;
      [ split; vm_compute; [discriminate | reflexivity]
      | reflexivity | reflexivity | reflexivity | vm_compute; discriminate ].
  - discriminate.
  - reflexivity.
Defined.

(** What the encoder appends for any set-field instruction whose value
    holds the bytes to be copied. *)
Lemma encode_returns (load : ofpact_reg_load) (mf : mf_field)
    (openflow : list Z) :
  compat load = OFPUTIL_OFPAT12_SET_FIELD ->
  field (dst load) = Some mf ->
  0 <= n_bytes mf <= Z.of_nat (List.length (value load)) ->
  n_bytes mf <= 65520 ->
  set_field_to_openflow load openflow
  = Returns (openflow
             ++ (htons OFPAT12_SET_FIELD
                 ++ htons (ROUND_UP (sizeof_oasf + n_bytes mf) 8)
                 ++ htonl (oxm_header mf)
                 ++ firstn (Z.to_nat (n_bytes mf)) (value load)
                 ++ repeat 0 (Z.to_nat (ROUND_UP (sizeof_oasf + n_bytes mf) 8
                                        - (sizeof_oasf + n_bytes mf))))).
Proof.
  intros Hc Hf Hn Hmax. unfold set_field_to_openflow. rewrite Hc, Hf.
  cbn [is_set_field assert bind].
  pose proof (ROUND_UP_8_ge (sizeof_oasf + n_bytes mf)) as Hr.
  unfold sizeof_oasf in *.
  assert (Hlen : uint16_t (8 + n_bytes mf) = 8 + n_bytes mf)
    by (apply Z.mod_small; lia).
  rewrite Hlen.
  assert (Hup : uint16_t (ROUND_UP (8 + n_bytes mf) 8)
                = ROUND_UP (8 + n_bytes mf) 8)
    by (apply Z.mod_small; lia).
  rewrite Hup.
  assert (Hpad : size_t (ROUND_UP (8 + n_bytes mf) 8 - (8 + n_bytes mf))
                 = ROUND_UP (8 + n_bytes mf) 8 - (8 + n_bytes mf))
    by (apply Z.mod_small; lia).
  rewrite Hpad. unfold read_bytes.
  destruct (Z.leb_spec (n_bytes mf) (Z.of_nat (List.length (value load))));
    [|lia].
  cbn [bind]. now rewrite <- !app_assoc.
Qed.

(** X8.  The encoder only appends, and what it appends is a whole record:
    for a set-field instruction whose union holds the [n_bytes] value
    bytes, the buffer afterwards is the buffer before followed by a record
    that does not depend on it, starts with the action type 25, is
    [ROUND_UP(8 + n_bytes, 8)] bytes long, a multiple of 8, and declares
    exactly that length in its length field.  A buffer that was 8-byte
    aligned stays so. *)
Theorem encode_appends_aligned_record (load : ofpact_reg_load) (mf : mf_field)
    (openflow : list Z)
    (Hcompat : compat load = OFPUTIL_OFPAT12_SET_FIELD)
    (Htarget : field (dst load) = Some mf)
    (Hvalue : 0 <= n_bytes mf <= Z.of_nat (List.length (value load)))
    (Hmax : n_bytes mf <= 65520) :
  exists record,
    set_field_to_openflow load openflow = Returns (openflow ++ record)
    /\ set_field_to_openflow load [] = Returns record
    /\ firstn 2 record = [0; 25]
    /\ Z.of_nat (List.length record) = ROUND_UP (sizeof_oasf + n_bytes mf) 8
    /\ wire_len record = Z.of_nat (List.length record)
    /\ Z.of_nat (List.length record) mod 8 = 0
    /\ (Z.of_nat (List.length openflow) mod 8 = 0 ->
        Z.of_nat (List.length (openflow ++ record)) mod 8 = 0).
Proof.
  pose proof (ROUND_UP_8_ge (sizeof_oasf + n_bytes mf)) as Hr.
  pose proof (ROUND_UP_8_aligned (sizeof_oasf + n_bytes mf)) as Hal.
  eexists. split; [now apply (encode_returns load mf)|].
  split; [now rewrite (encode_returns load mf []) by assumption|].
  split; [reflexivity|].
  assert (Hsize : Z.of_nat (List.length
                    (htons OFPAT12_SET_FIELD
                     ++ htons (ROUND_UP (sizeof_oasf + n_bytes mf) 8)
                     ++ htonl (oxm_header mf)
                     ++ firstn (Z.to_nat (n_bytes mf)) (value load)
                     ++ repeat 0 (Z.to_nat (ROUND_UP (sizeof_oasf + n_bytes mf) 8
                                            - (sizeof_oasf + n_bytes mf)))))
                  = ROUND_UP (sizeof_oasf + n_bytes mf) 8).
  { rewrite !length_app, repeat_length, length_firstn.
    cbn [htons htonl List.length]. unfold sizeof_oasf in *. lia. }
  split; [exact Hsize|]. split; [|split].
  - rewrite Hsize. apply ntohs_htons. unfold sizeof_oasf in *. lia.
  - now rewrite Hsize.
  - intros Hbuf. rewrite length_app, Nat2Z.inj_add, Hsize.
    rewrite Z.add_mod, Hbuf, Hal by lia. reflexivity.
Qed.

Lemma encode_appends_aligned_record_witness :
  exists record,
    set_field_to_openflow
      (@SetFieldAction Sample.registry Sample.vlan_pcp [5])
      [0; 0; 0; 8; 0; 0; 0; 0]
    = Returns ([0; 0; 0; 8; 0; 0; 0; 0] ++ record)
    /\ set_field_to_openflow
         (@SetFieldAction Sample.registry Sample.vlan_pcp [5]) []
       = Returns record
    /\ firstn 2 record = [0; 25]
    /\ Z.of_nat (List.length record)
       = ROUND_UP (sizeof_oasf + n_bytes Sample.vlan_pcp) 8
    /\ wire_len record = Z.of_nat (List.length record)
    /\ Z.of_nat (List.length record) mod 8 = 0
    /\ (Z.of_nat (List.length [0; 0; 0; 8; 0; 0; 0; 0]) mod 8 = 0 ->
        Z.of_nat (List.length ([0; 0; 0; 8; 0; 0; 0; 0] ++ record)) mod 8 = 0).
Proof.
  apply (encode_appends_aligned_record
           (@SetFieldAction Sample.registry Sample.vlan_pcp [5])
           Sample.vlan_pcp [0; 0; 0; 8; 0; 0; 0; 0]).
  - reflexivity.
  - reflexivity.
  - split; vm_compute; discriminate.
  - vm_compute; discriminate.
Defined.

Lemma encode_append (load : ofpact_reg_load) (openflow record : list Z) :
  set_field_to_openflow load [] = Returns record ->
  set_field_to_openflow load openflow = Returns (openflow ++ record).
Proof.
  unfold set_field_to_openflow.
  destruct (assert _) as [[]| | |]; cbn [bind]; try discriminate.
  destruct (field (dst load)) as [mf|]; [|discriminate].
  destruct (read_bytes _ _) as [v| | |]; cbn [bind]; try discriminate.
  intros H. injection H as <-. reflexivity.
Qed.

Lemma wire_len_app (oasf extra : list Z) :
  8 <= Z.of_nat (List.length oasf) ->
  wire_len (oasf ++ extra) = wire_len oasf.
Proof.
  intros H. unfold wire_len. now rewrite !app_nth1 by lia.
Qed.

(** X9.  Records written one after the other are read back one after the
    other.  When two actions are encoded into the same buffer, the decoder
    at the start of the buffer yields the first action, and the decoder at
    the offset the first record declares as its length yields the second,
    each with the validator's verdict. *)
Theorem decode_consecutive_records {registry : MetaFlow}
    (f1 f2 : mf_field) (v1 v2 : list Z) (ofpacts : list ofpact)
    (Hwire1 : on_the_wire f1) (Hoxm1 : oxm_header f1 <> 0)
    (Hwidth1 : Z.of_nat (List.length v1) = n_bytes f1)
    (Hwire2 : on_the_wire f2) (Hoxm2 : oxm_header f2 <> 0)
    (Hwidth2 : Z.of_nat (List.length v2) = n_bytes f2) :
  exists first both e1 e2,
    set_field_to_openflow (SetFieldAction f1 v1) [] = Returns first
    /\ set_field_to_openflow (SetFieldAction f2 v2) first = Returns both
    /\ set_field_check (SetFieldAction f1 v1) None = Returns e1
    /\ set_field_check (SetFieldAction f2 v2) None = Returns e2
    /\ set_field_from_openflow both ofpacts
       = Returns (e1, ofpacts ++ [OFPACT_REG_LOAD (SetFieldAction f1 v1)])
    /\ set_field_from_openflow (skipn (Z.to_nat (wire_len both)) both)
         (ofpacts ++ [OFPACT_REG_LOAD (SetFieldAction f1 v1)])
       = Returns (e2, (ofpacts ++ [OFPACT_REG_LOAD (SetFieldAction f1 v1)])
                      ++ [OFPACT_REG_LOAD (SetFieldAction f2 v2)]).
Proof.
  destruct (decode_encoded f1 v1 ofpacts Hwire1 Hoxm1 Hwidth1)
    as (r1 & Henc1 & Hlen1 & H8 & Hdec1).
  destruct (decode_encoded f2 v2
              (ofpacts ++ [OFPACT_REG_LOAD (SetFieldAction f1 v1)])
              Hwire2 Hoxm2 Hwidth2)
    as (r2 & Henc2 & _ & _ & Hdec2).
  exists r1, (r1 ++ r2). eexists. eexists.
  split; [exact Henc1|].
  split; [now apply encode_append|].
  split; [apply (set_field_check_returns _ f1); reflexivity|].
  split; [apply (set_field_check_returns _ f2); reflexivity|].
  split; [now apply decode_app|].
  rewrite wire_len_app by lia.
  rewrite <- Hlen1, Nat2Z.id, skipn_app, skipn_all, Nat.sub_diag.
  exact Hdec2.
Qed.

Lemma decode_consecutive_records_witness :
  exists first both e1 e2,
    set_field_to_openflow
      (@SetFieldAction Sample.registry Sample.vlan_pcp [5]) []
    = Returns first
    /\ set_field_to_openflow
         (@SetFieldAction Sample.registry Sample.nw_src [10; 0; 0; 1]) first
       = Returns both
    /\ @set_field_check Sample.registry
         (@SetFieldAction Sample.registry Sample.vlan_pcp [5]) None
       = Returns e1
    /\ @set_field_check Sample.registry
         (@SetFieldAction Sample.registry Sample.nw_src [10; 0; 0; 1]) None
       = Returns e2
    /\ @set_field_from_openflow Sample.registry both []
       = Returns (e1, [] ++ [OFPACT_REG_LOAD
                               (@SetFieldAction Sample.registry
                                  Sample.vlan_pcp [5])])
    /\ @set_field_from_openflow Sample.registry
         (skipn (Z.to_nat (wire_len both)) both)
         ([] ++ [OFPACT_REG_LOAD
                   (@SetFieldAction Sample.registry Sample.vlan_pcp [5])])
       = Returns (e2, ([] ++ [OFPACT_REG_LOAD
                                (@SetFieldAction Sample.registry
                                   Sample.vlan_pcp [5])])
                      ++ [OFPACT_REG_LOAD
                            (@SetFieldAction Sample.registry Sample.nw_src
                               [10; 0; 0; 1])]).
Proof.
  apply (@decode_consecutive_records Sample.registry
           Sample.vlan_pcp Sample.nw_src [5] [10; 0; 0; 1] []).
  - constructor;
      [ split; vm_compute; [discriminate | reflexivity]
      | reflexivity | reflexivity | reflexivity | vm_compute; discriminate ].
  - discriminate.
  - reflexivity.
  - constructor;
      [ split; vm_compute; [discriminate | reflexivity]
      | reflexivity | reflexivity | reflexivity | vm_compute; discriminate ].
  - discriminate.
  - reflexivity.
Defined.

Lemma div_mod_byte (q r : Z) :
  0 <= r < 2 ^ 8 ->
  (q * 2 ^ 8 + r) / 2 ^ 8 = q /\ (q * 2 ^ 8 + r) mod 2 ^ 8 = r.
Proof.
  intros Hr. split.
  - symmetry. apply (Z.div_unique _ _ q r); lia.
  - symmetry. apply (Z.mod_unique _ _ q r); lia.
Qed.

Lemma htons_ntohs (b0 b1 : Z) :
  0 <= b0 < 2 ^ 8 -> 0 <= b1 < 2 ^ 8 ->
  htons (ntohs b0 b1) = [b0; b1].
Proof.
  intros H0 H1. unfold htons, ntohs.
  destruct (div_mod_byte b0 b1 H1) as [-> ->].
  now rewrite (Z.mod_small b0) by lia.
Qed.

Lemma htonl_ntohl (b0 b1 b2 b3 : Z) :
  0 <= b0 < 2 ^ 8 -> 0 <= b1 < 2 ^ 8 -> 0 <= b2 < 2 ^ 8 -> 0 <= b3 < 2 ^ 8 ->
  htonl (ntohl b0 b1 b2 b3) = [b0; b1; b2; b3].
Proof.
  intros H0 H1 H2 H3. unfold htonl, ntohl.
  change (2 ^ 24) with (2 ^ 8 * 2 ^ 8 * 2 ^ 8).
  change (2 ^ 16) with (2 ^ 8 * 2 ^ 8).
  rewrite <- !Z.div_div by lia.
  destruct (div_mod_byte ((b0 * 2 ^ 8 + b1) * 2 ^ 8 + b2) b3 H3) as [-> ->].
  destruct (div_mod_byte (b0 * 2 ^ 8 + b1) b2 H2) as [-> ->].
  destruct (div_mod_byte b0 b1 H1) as [-> ->].
  now rewrite (Z.mod_small b0) by lia.
Qed.

Lemma all_zero_is_repeat : forall l : list Z,
  (forall j, (j < List.length l)%nat -> nth_error l j = Some 0) ->
  l = repeat 0 (List.length l).
Proof.
  induction l as [|b l IH]; intros H; [reflexivity|].
  cbn [List.length repeat]. f_equal.
  - specialize (H 0%nat ltac:(cbn; lia)). cbn in H. congruence.
  - apply IH. intros j Hj. apply (H (S j)). cbn. lia.
Qed.

(** X10.  Encoding what was decoded gives the record back.  Under a
    registry whose lookup by header returns descriptors that carry that
    header and are as wide as it declares, a record of bytes, exactly as
    long as it declares, that the decoder accepts is reproduced byte for
    byte by the encoder from the decoded action, but for the action type,
    which the decoder did not read and the encoder sets to 25. *)
Theorem encode_after_decode {registry : MetaFlow} (oasf : list Z)
    (ofpacts buf : list ofpact)
    (Hbytes : Forall (fun b => 0 <= b < 2 ^ 8) oasf)
    (Hstruct : 8 <= Z.of_nat (List.length oasf))
    (Hexact : Z.of_nat (List.length oasf) = wire_len oasf)
    (Hregistry : forall header mf,
        mf_from_nxm_header header = Some mf ->
        oxm_header mf = header /\ n_bytes mf = NXM_LENGTH header)
    (Hok : set_field_from_openflow oasf ofpacts = Returns (OFPERR_0, buf)) :
  exists load,
    buf = ofpacts ++ [OFPACT_REG_LOAD load]
    /\ set_field_to_openflow load []
       = Returns (htons OFPAT12_SET_FIELD ++ skipn 2 oasf).
Proof.
  destruct (decode_returns_inv oasf ofpacts _ _ Hstruct Hok)
    as [[He _]|(mf & Hlen & Hpad & _ & Hmf & _ & Hsrc & Hdst & _ & Hbuf)];
    [discriminate|].
  destruct (Hregistry _ _ Hmf) as [Hhdr Hn].
  pose proof (NXM_LENGTH_range (wire_header oasf)) as Hrange.
  assert (Hvl : wire_value_length oasf = n_bytes mf)
    by (unfold wire_value_length, uint8_t; rewrite Hn; apply Z.mod_small; lia).
  rewrite Hvl in Hlen, Hpad. rewrite <- Hn in Hrange.
  exists (decoded_load mf oasf). split; [exact Hbuf|].
  unfold sizeof_oasf in *.
  destruct oasf as [|b0 [|b1 [|b2 [|b3 [|b4 [|b5 [|b6 [|b7 tail]]]]]]]];
    cbn [List.length] in Hstruct; try lia.
  repeat match goal with
         | H : Forall _ (_ :: _) |- _ =>
             let Hb := fresh "Hb" in
             apply Forall_cons_iff in H; destruct H as [Hb H]
         end.
  change (wire_len (b0 :: b1 :: b2 :: b3 :: b4 :: b5 :: b6 :: b7 :: tail))
    with (ntohs b2 b3) in *.
  change (wire_header (b0 :: b1 :: b2 :: b3 :: b4 :: b5 :: b6 :: b7 :: tail))
    with (ntohl b4 b5 b6 b7) in *.
  assert (Htail : Z.of_nat (List.length tail) = ntohs b2 b3 - 8)
    by (rewrite <- Hexact; cbn [List.length]; lia).
  rewrite (encode_returns (decoded_load mf _) mf []); try reflexivity;
    [|unfold decoded_load; cbn [value skipn];
      rewrite length_app, length_firstn, repeat_length;
      cbn [List.length] in Hsrc; lia
     |lia].
  unfold sizeof_oasf. rewrite <- Hlen, Hhdr.
  rewrite htons_ntohs, htonl_ntohl by assumption.
  cbn [app skipn].
  match goal with
  | |- Returns (?p ++ ?a :: ?b :: ?c :: ?d :: ?e :: ?f :: ?x)
       = Returns (?p ++ ?a :: ?b :: ?c :: ?d :: ?e :: ?f :: ?y) =>
      cut (x = y); [intros ->; reflexivity|]
  end.
  unfold decoded_load. cbn [value skipn].
  cbn [List.length] in Hsrc.
  rewrite firstn_app, firstn_firstn, Nat.min_id, length_firstn.
  replace (Z.to_nat (n_bytes mf)
           - Nat.min (Z.to_nat (n_bytes mf)) (List.length tail))%nat
    with 0%nat by lia.
  cbn [firstn]. rewrite app_nil_r.
  rewrite <- (firstn_skipn (Z.to_nat (n_bytes mf)) tail) at 2.
  apply (f_equal (app (firstn (Z.to_nat (n_bytes mf)) tail))).
  rewrite (all_zero_is_repeat (skipn (Z.to_nat (n_bytes mf)) tail)).
  - apply (f_equal (repeat 0)). rewrite length_skipn. lia.
  - intros j Hj. rewrite length_skipn in Hj. rewrite nth_error_skipn.
    specialize (Hpad (8 + n_bytes mf + Z.of_nat j) ltac:(lia)).
    replace (Z.to_nat (8 + n_bytes mf + Z.of_nat j))
      with (8 + (Z.to_nat (n_bytes mf) + j))%nat in Hpad by lia.
    exact Hpad.
Qed.

Lemma sample_lookup_coherent (header : Z) (mf : mf_field) :
  @mf_from_nxm_header Sample.registry header = Some mf ->
  oxm_header mf = header /\ n_bytes mf = NXM_LENGTH header.
Proof.
  intros H.
  change (find (fun f => oxm_header f =? header)
            [Sample.nw_src; Sample.vlan_pcp; Sample.reg0; Sample.ip_ttl]
          = Some mf) in H.
  cbn [find] in H.
  repeat match type of H with
         | (if ?a =? ?b then _ else _) = _ =>
             destruct (Z.eqb_spec a b) as [E|_];
             [injection H as <-; rewrite <- E; split; reflexivity|]
         end.
  discriminate.
Qed.

Lemma encode_after_decode_witness :
  exists load,
    [OFPACT_REG_LOAD (@SetFieldAction Sample.registry Sample.nw_src
                        [10; 0; 0; 1])]
    = [] ++ [OFPACT_REG_LOAD load]
    /\ set_field_to_openflow load []
       = Returns (htons OFPAT12_SET_FIELD
                  ++ skipn 2 [0; 25; 0; 16; 128; 0; 22; 4;
                              10; 0; 0; 1; 0; 0; 0; 0]).
Proof.
  apply (@encode_after_decode Sample.registry
           [0; 25; 0; 16; 128; 0; 22; 4; 10; 0; 0; 1; 0; 0; 0; 0] []).
  - repeat (apply Forall_cons; [split; vm_compute; [discriminate | reflexivity]|]).
    apply Forall_nil.
  - vm_compute; discriminate.
  - reflexivity.
  - exact sample_lookup_coherent.
  - reflexivity.
Defined.

(** ** The parser and the formatter together *)

Lemma str_upto_from (n : nat) : forall s : string,
  (str_upto n s ++ str_from n s)%string = s.
Proof.
  induction n as [|n IH]; intros [|c s]; cbn; auto. now rewrite IH.
Qed.

Lemma strstr_found (needle : string) : forall (haystack : string) (i : nat),
  strstr haystack needle = Some i ->
  prefix needle (str_from i haystack) = true.
Proof.
  induction haystack as [|c h IH]; intros i Hi; cbn [strstr] in Hi.
  - destruct (prefix needle EmptyString) eqn:Hp; [|discriminate].
    injection Hi as <-. exact Hp.
  - destruct (prefix needle (String c h)) eqn:Hp.
    + injection Hi as <-. exact Hp.
    + destruct (strstr h needle) as [j|] eqn:Hj; [|discriminate].
      injection Hi as <-. cbn [str_from]. now apply IH.
Qed.

Lemma prefix_arrow (s : string) :
  prefix "->" s = true -> s = ("->" ++ str_from 2 s)%string.
Proof.
  destruct s as [|a [|b s]]; cbn -[ascii_dec]; try discriminate.
  - now destruct (ascii_dec "-" a).
  - destruct (ascii_dec "-" a) as [<-|]; [|discriminate].
    destruct (ascii_dec ">" b) as [<-|]; [|discriminate]. reflexivity.
Qed.

(** A text with a delimiter is the value text, the delimiter and the key
    the parser takes from it. *)
Lemma split_at_delimiter (arg : string) (i : nat) :
  strstr arg "->" = Some i ->
  arg = (str_upto i arg ++ "->" ++ str_from (i + 2) arg)%string.
Proof.
  intros Hi. rewrite str_from_add.
  rewrite <- (prefix_arrow _ (strstr_found _ _ _ Hi)).
  symmetry. apply str_upto_from.
Qed.

Lemma prefix_arrow_app_true (s t : string) :
  prefix "->" s = true -> prefix "->" (s ++ t) = true.
Proof.
  destruct s as [|a [|b s]]; cbn -[ascii_dec]; try discriminate.
  - now destruct (ascii_dec "-" a).
  - destruct (ascii_dec "-" a); [|discriminate].
    destruct (ascii_dec ">" b); [|discriminate].
    intros _. now destruct (s ++ t)%string.
Qed.

Lemma strstr_app_found (k : string) : forall (v : string) (j : nat),
  strstr v "->" = Some j -> strstr (v ++ "->" ++ k) "->" = Some j.
Proof.
  induction v as [|c v IH]; intros j H; cbn [strstr] in H; [discriminate|].
  change (String c v ++ "->" ++ k)%string with (String c (v ++ "->" ++ k)).
  cbn [strstr].
  destruct (prefix "->" (String c v)) eqn:Hp.
  - injection H as <-.
    change (String c (v ++ "->" ++ k)) with (String c v ++ "->" ++ k)%string.
    now rewrite (prefix_arrow_app_true _ _ Hp).
  - destruct (strstr v "->") as [j'|]; [|discriminate].
    injection H as <-.
    now rewrite (prefix_arrow_app c v k Hp), (IH j' eq_refl).
Qed.

Lemma strstr_bound : forall (s : string) (j : nat),
  strstr s "->" = Some j -> (j + 2 <= String.length s)%nat.
Proof.
  induction s as [|c s IH]; intros j H; cbn [strstr] in H; [discriminate|].
  destruct (prefix "->" (String c s)) eqn:Hp.
  - injection H as <-. apply prefix_arrow in Hp.
    apply (f_equal String.length) in Hp. cbn in Hp |- *. lia.
  - destruct (strstr s "->") as [j'|]; [|discriminate].
    injection H as <-. specialize (IH j' eq_refl). cbn. lia.
Qed.

Lemma length_str_upto (n : nat) : forall s : string,
  (String.length (str_upto n s) <= n)%nat.
Proof.
  induction n as [|n IH]; intros [|c s]; cbn; try lia.
  specialize (IH s). lia.
Qed.

(** What precedes the first delimiter holds no delimiter. *)
Lemma value_text_has_no_delimiter (arg : string) (i : nat) :
  strstr arg "->" = Some i -> strstr (str_upto i arg) "->" = None.
Proof.
  intros Hi.
  destruct (strstr (str_upto i arg) "->") as [j|] eqn:Hj; [|reflexivity].
  pose proof (strstr_app_found (str_from (i + 2) arg) _ _ Hj) as Hj'.
  rewrite <- (split_at_delimiter arg i Hi) in Hj'.
  pose proof (strstr_bound _ _ Hj). pose proof (length_str_upto i arg).
  assert (j = i) by congruence. lia.
Qed.

(** Every way the parser returns. *)
Lemma parse_returns_inv {registry : MetaFlow} (arg : string)
    (ofpacts buf : list ofpact) :
  set_field_parse arg ofpacts = Returns buf ->
  exists i mf val,
    strstr arg "->" = Some i
    /\ str_from (i + 2) arg <> EmptyString
    /\ mf_parse_oxm_name (str_from (i + 2) arg) = Some mf
    /\ set_field_mf_allowed mf = true
    /\ mf_parse_value mf (str_upto i arg) (repeat 0 sizeof_mf_value)
       = (None, val)
    /\ mf_is_value_valid mf val = true
    /\ buf = ofpacts
             ++ [OFPACT_REG_LOAD
                   {| compat := OFPUTIL_OFPAT12_SET_FIELD;
                      dst := {| field := Some mf; ofs := 0;
                                sf_n_bits := n_bits mf |};
                      value := val |}].
Proof.
  unfold set_field_parse. cbv zeta. intros H.
  destruct (strstr arg "->") as [i|]; [|discriminate].
  destruct (Nat.leb_spec (String.length (str_from i arg)) (String.length "->"))
    as [|Hlong]; [discriminate|].
  destruct (mf_parse_oxm_name (str_from (i + String.length "->") arg))
    as [mf|] eqn:Hmf; [|discriminate].
  destruct (set_field_mf_allowed mf) eqn:Ha; [|discriminate].
  cbn [negb ofpact_put_REG_LOAD value] in H.
  destruct (mf_parse_value mf (str_upto i arg) (repeat 0 sizeof_mf_value))
    as [[message|] val] eqn:Hval; [discriminate|].
  destruct (mf_is_value_valid mf val) eqn:Hvalid; [|discriminate].
  cbn [negb] in H. injection H as <-.
  exists i, mf, val. repeat split; try assumption.
  intros Hempty. rewrite length_str_from in Hlong.
  assert (Hl : String.length (str_from (i + 2) arg) = 0%nat)
    by (now rewrite Hempty).
  rewrite length_str_from in Hl. cbn [String.length] in Hlong. lia.
Qed.

(** X11.  Whatever the parser returns has been validated: when it returns,
    the text is a value text, the first delimiter and a field name that is
    not empty; the name resolved to a descriptor the allow-list accepts;
    the buffer gained exactly one set-field instruction for it (bit offset
    0, full width) holding the parsed value; and the validator run on this
    instruction returns success. *)
Theorem parse_success_is_validated {registry : MetaFlow} (arg : string)
    (ofpacts buf : list ofpact)
    (Hret : set_field_parse arg ofpacts = Returns buf) :
  exists value_text key mf load,
    arg = (value_text ++ "->" ++ key)%string
    /\ strstr value_text "->" = None
    /\ key <> EmptyString
    /\ mf_parse_oxm_name key = Some mf
    /\ set_field_mf_allowed mf = true
    /\ buf = ofpacts ++ [OFPACT_REG_LOAD load]
    /\ compat load = OFPUTIL_OFPAT12_SET_FIELD
    /\ dst load = {| field := Some mf; ofs := 0; sf_n_bits := n_bits mf |}
    /\ mf_parse_value mf value_text (repeat 0 sizeof_mf_value)
       = (None, value load)
    /\ set_field_check load None = Returns OFPERR_0.
Proof.
  destruct (parse_returns_inv arg ofpacts buf Hret)
    as (i & mf & val & Hi & Hkey & Hmf & Ha & Hval & Hvalid & Hbuf).
  exists (str_upto i arg), (str_from (i + 2) arg), mf.
  eexists. split; [now apply split_at_delimiter|].
  split; [now apply value_text_has_no_delimiter|].
  repeat split; try eassumption; try reflexivity.
  rewrite (set_field_check_returns _ mf) by reflexivity.
  cbn [value]. now rewrite Ha, Hvalid.
Qed.

Lemma parse_success_is_validated_witness :
  exists value_text key mf load,
    "0x5->dl_vlan_pcp"%string = (value_text ++ "->" ++ key)%string
    /\ strstr value_text "->" = None
    /\ key <> EmptyString
    /\ @mf_parse_oxm_name Sample.registry key = Some mf
    /\ set_field_mf_allowed mf = true
    /\ [OFPACT_REG_LOAD (@SetFieldAction Sample.registry Sample.vlan_pcp [5])]
       = [] ++ [OFPACT_REG_LOAD load]
    /\ compat load = OFPUTIL_OFPAT12_SET_FIELD
    /\ dst load = {| field := Some mf; ofs := 0; sf_n_bits := n_bits mf |}
    /\ @mf_parse_value Sample.registry mf value_text
         (repeat 0 (@sizeof_mf_value Sample.registry))
       = (None, value load)
    /\ @set_field_check Sample.registry load None = Returns OFPERR_0.
Proof.
  apply (@parse_success_is_validated Sample.registry
           "0x5->dl_vlan_pcp" []).
  reflexivity.
Defined.

(** X12.  Formatting what was parsed gives the text back.  Under a
    registry whose lookup by name returns descriptors of that name and
    whose value parser accepts only the text its formatter writes, a text
    the parser accepts is reproduced by the formatter from the parsed
    action, after the words "set_field:" and whatever the string held
    before. *)
Theorem format_after_parse {registry : MetaFlow} (arg s : string)
    (ofpacts buf : list ofpact)
    (Hnames : forall key mf, mf_parse_oxm_name key = Some mf -> name mf = key)
    (Htexts : forall mf text before val,
        mf_parse_value mf text before = (None, val) ->
        mf_format mf val = text)
    (Hret : set_field_parse arg ofpacts = Returns buf) :
  exists load,
    buf = ofpacts ++ [OFPACT_REG_LOAD load]
    /\ set_field_format load s = Returns (s ++ "set_field:" ++ arg)%string.
Proof.
  destruct (parse_returns_inv arg ofpacts buf Hret)
    as (i & mf & val & Hi & _ & Hmf & _ & Hval & _ & Hbuf).
  eexists. split; [exact Hbuf|].
  unfold set_field_format. cbn [compat is_set_field assert bind dst field value].
  rewrite (Htexts _ _ _ _ Hval), (Hnames _ _ Hmf).
  now rewrite <- (split_at_delimiter arg i Hi).
Qed.

Lemma sample_names_coherent (key : string) (mf : mf_field) :
  @mf_parse_oxm_name Sample.registry key = Some mf -> name mf = key.
Proof.
  intros H.
  change (find (fun f => String.eqb (name f) key)
            [Sample.nw_src; Sample.vlan_pcp; Sample.reg0; Sample.ip_ttl]
          = Some mf) in H.
  apply find_some in H. now apply String.eqb_eq.
Qed.

Lemma length_be_bytes (n : nat) : forall x : Z,
  List.length (Sample.be_bytes n x) = n.
Proof.
  induction n as [|n IH]; intros x; cbn [Sample.be_bytes]; [reflexivity|].
  rewrite length_app, IH. cbn. lia.
Qed.

Lemma be_number_app (b : Z) : forall (l : list Z) (acc : Z),
  Sample.be_number acc (l ++ [b]) = Sample.be_number acc l * 2 ^ 8 + b.
Proof.
  induction l as [|a l IH]; intros acc; cbn [Sample.be_number app];
    [reflexivity | apply IH].
Qed.

Lemma be_number_be_bytes (n : nat) : forall x : Z,
  0 <= x < 2 ^ (8 * Z.of_nat n) ->
  Sample.be_number 0 (Sample.be_bytes n x) = x.
Proof.
  induction n as [|n IH]; intros x Hx.
  - cbn in *. lia.
  - cbn [Sample.be_bytes]. rewrite be_number_app, IH.
    + pose proof (Z.div_mod x (2 ^ 8) ltac:(lia)). lia.
    + replace (8 * Z.of_nat (S n)) with (8 + 8 * Z.of_nat n) in Hx by lia.
      rewrite Z.pow_add_r in Hx by lia.
      split; [apply Z.div_pos; lia | apply Z.div_lt_upper_bound; lia].
Qed.

Lemma sample_texts_coherent (mf : mf_field) (text : string)
    (before val : mf_value) :
  @mf_parse_value Sample.registry mf text before = (None, val) ->
  @mf_format Sample.registry mf val = text.
Proof.
  cbn [mf_parse_value mf_format Sample.registry Sample.registry_of].
  unfold Sample.parse_value, Sample.format.
  destruct (String.eqb _ text) eqn:Etext; cbn [andb]; [|discriminate].
  destruct (Z.leb_spec 0 (HexString.to_Z text)) as [Hpos|];
    cbn [andb]; [|discriminate].
  destruct (Z.ltb_spec (HexString.to_Z text) (2 ^ (8 * n_bytes mf)))
    as [Hlt|]; [|discriminate].
  intros H. injection H as <-.
  apply String.eqb_eq in Etext.
  assert (Hn : 0 <= n_bytes mf).
  { destruct (Z.le_gt_cases 0 (n_bytes mf)) as [|Hneg]; [assumption|].
    rewrite Z.pow_neg_r in Hlt by lia. lia. }
  rewrite firstn_app, length_be_bytes, Nat.sub_diag.
  rewrite <- (length_be_bytes (Z.to_nat (n_bytes mf)) (HexString.to_Z text))
    at 1.
  rewrite firstn_all. cbn [firstn]. rewrite app_nil_r.
  rewrite be_number_be_bytes; [exact Etext|].
  now rewrite Z2Nat.id by assumption.
Qed.

Lemma format_after_parse_witness :
  exists load,
    [OFPACT_REG_LOAD (@SetFieldAction Sample.registry Sample.nw_src
                        [10; 0; 0; 1])]
    = [] ++ [OFPACT_REG_LOAD load]
    /\ @set_field_format Sample.registry load "actions="
       = Returns ("actions=" ++ "set_field:" ++ "0xa000001->nw_src")%string.
Proof.
  apply (@format_after_parse Sample.registry "0xa000001->nw_src" "actions=" []).
  - exact sample_names_coherent.
  - exact sample_texts_coherent.
  - reflexivity.
Defined.

(** ** Edge cases of the parser *)

(** X13.  A text of fewer than three characters never parses, whatever
    the registry: the text "->" alone leaves with "missing field name
    following `->'", every other one, the empty text included, with
    "missing `->'". *)
Theorem parse_refuses_short_text {registry : MetaFlow} (arg : string)
    (ofpacts : list ofpact)
    (Hshort : (String.length arg < 3)%nat) :
  (arg = "->"%string
   /\ set_field_parse arg ofpacts = Exits (missing_field_name arg))
  \/ (arg <> "->"%string
      /\ set_field_parse arg ofpacts = Exits (missing_arrow arg)).
Proof.
  destruct (strstr arg "->") as [i|] eqn:Hi.
  - left. pose proof (strstr_bound _ _ Hi) as Hb.
    assert (i = 0%nat) by lia. subst i.
    pose proof (split_at_delimiter arg 0 Hi) as Hsplit.
    assert (Hkey : str_from 2 arg = EmptyString).
    { pose proof (length_str_from 2 arg) as Hl.
      destruct (str_from 2 arg); [reflexivity | cbn in Hl; lia]. }
    cbn [str_upto Nat.add] in Hsplit. rewrite Hkey in Hsplit.
    split; [exact Hsplit|]. now rewrite Hsplit.
  - right. split; [intros ->; discriminate|].
    unfold set_field_parse. cbv zeta. now rewrite Hi.
Qed.

Lemma parse_refuses_short_text_witness :
  (EmptyString = "->"%string
   /\ @set_field_parse Sample.registry EmptyString []
      = Exits (missing_field_name EmptyString))
  \/ (EmptyString <> "->"%string
      /\ @set_field_parse Sample.registry EmptyString []
         = Exits (missing_arrow EmptyString)).
Proof.
  apply (@parse_refuses_short_text Sample.registry EmptyString []).
  cbn. lia.
Defined.

(** X14.  The field name is all that follows the first delimiter, further
    delimiters included.  When the registry does not know that name, the
    parser leaves with "is not valid oxm field name" and the whole name,
    before the allow-list is asked and before the value text is parsed
    (the statement holds whatever the registry makes of the value). *)
Theorem parse_unknown_field_name {registry : MetaFlow}
    (value_text key : string) (ofpacts : list ofpact)
    (Hvalue : strstr value_text "->" = None)
    (Hkey : key <> EmptyString)
    (Hunknown : mf_parse_oxm_name key = None) :
  set_field_parse (value_text ++ "->" ++ key) ofpacts
  = Exits (not_valid_oxm_field_name key).
Proof.
  destruct (parse_at_delimiter value_text key Hvalue Hkey)
    as (Hs & Hl & Hk & _).
  unfold set_field_parse. cbv zeta. now rewrite Hs, Hl, Hk, Hunknown.
Qed.

Lemma parse_unknown_field_name_witness :
  @set_field_parse Sample.registry "0x5->0x7->dl_vlan_pcp" []
  = Exits (not_valid_oxm_field_name "0x7->dl_vlan_pcp").
Proof.
  apply (@parse_unknown_field_name Sample.registry
           "0x5" "0x7->dl_vlan_pcp" []).
  - reflexivity.
  - discriminate.
  - reflexivity.
Defined.

(** ** Instructions that are not set-field actions *)

(** X15.  The validator, the encoder and the formatter stop on a failed
    assertion when handed a load instruction that is not a set-field
    action, such as one just appended to a buffer or a register load, and
    do so before they look at its target.  [set_field_init] is what makes
    an instruction acceptable to them: whatever the instruction was, after
    it the three pass their assertion, the target, offset 0 and full width
    are set, and the value bytes are as they were. *)
Theorem consumers_assert_set_field {registry : MetaFlow}
    (load : ofpact_reg_load) (fl : option flow) (openflow : list Z)
    (s : string)
    (Hother : compat load <> OFPUTIL_OFPAT12_SET_FIELD) :
  set_field_check load fl = Aborts
  /\ set_field_to_openflow load openflow = Aborts
  /\ set_field_format load s = Aborts
  /\ forall mf,
       set_field_check (set_field_init load mf) fl
       = Returns (if set_field_mf_allowed mf
                     && mf_is_value_valid mf (value load)
                  then OFPERR_0 else OFPERR_OFPBAC_BAD_ARGUMENT)
       /\ set_field_format (set_field_init load mf) s
          = Returns (s ++ "set_field:" ++ mf_format mf (value load)
                       ++ "->" ++ name mf)%string
       /\ set_field_to_openflow (set_field_init load mf) openflow <> Aborts
       /\ value (set_field_init load mf) = value load
       /\ dst (set_field_init load mf)
          = {| field := Some mf; ofs := 0; sf_n_bits := n_bits mf |}.
Proof.
  assert (Hc : is_set_field (compat load) = false)
    by (destruct (compat load); try reflexivity; contradiction).
  unfold set_field_check, set_field_to_openflow, set_field_format.
  rewrite Hc. cbn [assert bind]. repeat split;
    cbn [set_field_init compat is_set_field assert bind dst field value].
  - now destruct (set_field_mf_allowed mf), (mf_is_value_valid mf (value load)).
  - unfold read_bytes. now destruct (_ <=? _).
Qed.

Lemma consumers_assert_set_field_witness :
  @set_field_check Sample.registry (@ofpact_put_REG_LOAD Sample.registry) None
  = Aborts.
Proof.
  apply (@consumers_assert_set_field Sample.registry
           (@ofpact_put_REG_LOAD Sample.registry) None [] EmptyString).
  discriminate.
Defined.

(** ** What the wire form cannot carry *)

(** X16.  The encoder writes the target's header and the first [n_bytes]
    bytes of the union and nothing else of the instruction: the bit offset
    and bit count of the destination, and the bytes of the union past the
    value, do not reach the wire.  Whatever they were, the record is the
    one of the full-width action with the same target and value bytes, and
    decoding it yields that action: offset 0, the full width of the
    target, zero bytes after the value. *)
Theorem wire_form_is_full_width {registry : MetaFlow}
    (load : ofpact_reg_load) (f : mf_field) (v : list Z)
    (ofpacts : list ofpact)
    (Hcompat : compat load = OFPUTIL_OFPAT12_SET_FIELD)
    (Htarget : field (dst load) = Some f)
    (Hwire : on_the_wire f)
    (Hoxm : oxm_header f <> 0)
    (Hwidth : Z.of_nat (List.length v) = n_bytes f)
    (Hvalue : firstn (Z.to_nat (n_bytes f)) (value load) = v) :
  exists record,
    set_field_to_openflow load [] = Returns record
    /\ set_field_to_openflow (SetFieldAction f v) [] = Returns record
    /\ set_field_from_openflow record ofpacts
       = Returns (if set_field_mf_allowed f
                     && mf_is_value_valid f (value (SetFieldAction f v))
                  then OFPERR_0 else OFPERR_OFPBAC_BAD_ARGUMENT,
                  ofpacts ++ [OFPACT_REG_LOAD (SetFieldAction f v)]).
Proof.
  destruct (decode_encoded f v ofpacts Hwire Hoxm Hwidth)
    as (record & Henc & _ & _ & Hdec).
  exists record. split; [|split; assumption].
  pose proof (NXM_LENGTH_range (oxm_header f)) as Hn.
  rewrite (otw_length f Hwire) in Hn.
  assert (Hlen : n_bytes f <= Z.of_nat (List.length (value load))).
  { apply (f_equal (@List.length Z)) in Hvalue.
    rewrite length_firstn in Hvalue. lia. }
  rewrite (encode_returns load f []) by (try assumption; lia).
  rewrite (encode_SetFieldAction f v) in Henc by (try assumption; lia).
  injection Henc as <-. now rewrite Hvalue.
Qed.

Lemma wire_form_is_full_width_witness :
  exists record,
    set_field_to_openflow
      {| compat := OFPUTIL_OFPAT12_SET_FIELD;
         dst := {| field := Some Sample.nw_src; ofs := 8; sf_n_bits := 16 |};
         value := [10; 0; 0; 1; 9; 9; 9; 9; 9; 9; 9; 9; 9; 9; 9; 9] |} []
    = Returns record
    /\ set_field_to_openflow
         (@SetFieldAction Sample.registry Sample.nw_src [10; 0; 0; 1]) []
       = Returns record
    /\ @set_field_from_openflow Sample.registry record []
       = Returns (if set_field_mf_allowed Sample.nw_src
                     && @mf_is_value_valid Sample.registry Sample.nw_src
                          (value (@SetFieldAction Sample.registry
                                    Sample.nw_src [10; 0; 0; 1]))
                  then OFPERR_0 else OFPERR_OFPBAC_BAD_ARGUMENT,
                  [] ++ [OFPACT_REG_LOAD
                           (@SetFieldAction Sample.registry Sample.nw_src
                              [10; 0; 0; 1])]).
Proof.
  apply (@wire_form_is_full_width Sample.registry
           {| compat := OFPUTIL_OFPAT12_SET_FIELD;
              dst := {| field := Some Sample.nw_src; ofs := 8;
                        sf_n_bits := 16 |};
              value := [10; 0; 0; 1; 9; 9; 9; 9; 9; 9; 9; 9; 9; 9; 9; 9] |}
           Sample.nw_src [10; 0; 0; 1] []).
  - reflexivity.
  - reflexivity.
  - constructor;
      [ split; vm_compute; [discriminate | reflexivity]
      | reflexivity | reflexivity | reflexivity | vm_compute; discriminate ].
  - discriminate.
  - reflexivity.
  - reflexivity.
Defined.

(** ** The formatter is no gate, the parser is *)

(** X17.  The formatter writes the text of any set-field action, allowed
    and valid or not.  When the registry's text for the value is lossless,
    parsing what follows "set_field:" gives: the action back when the
    target is allowed and the value valid; the exit "is not allowed to
    set" with the field's name when the allow-list refuses the target,
    whatever the value; the exit "is not valid valid for field" with the
    value text and the name when the target is allowed and the value is
    not valid. *)
Theorem parse_after_format_is_the_validator {registry : MetaFlow}
    (f : mf_field) (v : list Z) (ofpacts : list ofpact)
    (Htext : text_lossless f (value (SetFieldAction f v))) :
  set_field_format (SetFieldAction f v) EmptyString
  = Returns ("set_field:"
             ++ (mf_format f (value (SetFieldAction f v)) ++ "->" ++ name f))%string
  /\ set_field_parse
       (mf_format f (value (SetFieldAction f v)) ++ "->" ++ name f) ofpacts
     = (if negb (set_field_mf_allowed f) then
          Exits (not_allowed_to_set (name f))
        else if negb (mf_is_value_valid f (value (SetFieldAction f v))) then
          Exits (not_valid_for_field
                   (mf_format f (value (SetFieldAction f v))) (name f))
        else
          Returns (ofpacts ++ [OFPACT_REG_LOAD (SetFieldAction f v)])).
Proof.
  destruct Htext as [Hval Hno Hname Hne]. split; [reflexivity|].
  destruct (set_field_mf_allowed f) eqn:Ha; cbn [negb].
  2:{ now apply (parse_not_allowed _ _ f). }
  destruct (mf_is_value_valid f (value (SetFieldAction f v))) eqn:Hv;
    cbn [negb].
  - now rewrite (parse_accepts _ _ f ofpacts Hno Hne Hname _ Ha Hval Hv).
  - destruct (parse_at_delimiter _ _ Hno Hne) as (Hs & Hl & Hk & Hu).
    unfold set_field_parse. cbv zeta. rewrite Hs, Hl, Hk, Hname, Ha, Hu.
    cbn [negb ofpact_put_REG_LOAD value]. rewrite Hval, Hv. reflexivity.
Qed.

Lemma parse_after_format_is_the_validator_witness :
  @set_field_format Sample.registry
    (@SetFieldAction Sample.registry Sample.vlan_pcp [8]) EmptyString
  = Returns "set_field:0x8->dl_vlan_pcp"%string
  /\ @set_field_parse Sample.registry "0x8->dl_vlan_pcp" []
     = Exits (not_valid_for_field "0x8" "dl_vlan_pcp").
Proof.
  apply (@parse_after_format_is_the_validator Sample.registry
           Sample.vlan_pcp [8] []).
  constructor; [reflexivity | reflexivity | reflexivity | discriminate].
Defined.

(** ** Buffers are only appended to *)

(** X18.  The decoder and the parser never change or drop what the
    caller's buffer holds: their outcome on a buffer is their outcome on
    an empty buffer, with what that one holds afterwards (nothing, or one
    instruction) put behind the caller's instructions. *)
Theorem buffers_are_only_appended_to {registry : MetaFlow} (oasf : list Z)
    (arg : string) (ofpacts : list ofpact) :
  set_field_from_openflow oasf ofpacts
  = (r <- set_field_from_openflow oasf [] ;;
     Returns (fst r, ofpacts ++ snd r))
  /\ set_field_parse arg ofpacts
     = (added <- set_field_parse arg [] ;; Returns (ofpacts ++ added)).
Proof.
  split.
  - unfold set_field_from_openflow.
    destruct (read_be16 oasf offsetof_len) as [len| | |]; try reflexivity.
    destruct (read_be32 oasf offsetof_field) as [header| | |];
      try reflexivity.
    cbn [bind].
    destruct (negb _); [cbn; now rewrite app_nil_r|].
    destruct (padding_is_zero oasf _ _) as [zero| | |]; try reflexivity.
    cbn [bind]. destruct (negb zero); [cbn; now rewrite app_nil_r|].
    destruct (NXM_HASMASK header); [cbn; now rewrite app_nil_r|].
    destruct (mf_from_nxm_header header) as [mf|];
      [|cbn; now rewrite app_nil_r].
    destruct (oxm_header mf =? 0); [cbn; now rewrite app_nil_r|].
    destruct (memcpy _ _ _) as [v| | |]; try reflexivity. cbn [bind].
    destruct (nxm_reg_load_check _ None) as [e| | |]; reflexivity.
  - unfold set_field_parse. cbv zeta.
    destruct (strstr arg "->") as [i|]; [|reflexivity].
    destruct (_ <=? _)%nat; [reflexivity|].
    destruct (mf_parse_oxm_name _) as [mf|]; [|reflexivity].
    destruct (negb (set_field_mf_allowed mf)); [reflexivity|].
    destruct (mf_parse_value _ _ _) as [[message|] val]; [reflexivity|].
    destruct (negb (mf_is_value_valid mf val)); reflexivity.
Qed.
